(** * sfdx-core: the [Config] class of [src/lib/config/config.ts]

    A shallow embedding of the JSON-backed configuration file of the
    toolbelt: the path construction of [Config.create], and the
    read / write / exists / stat / unlink operations built on the
    resolved path.

    Layout of the development:
    - [JS]        : the JavaScript values the class handles (JSON values,
                    [undefined] as [None]), truthiness, lodash's predicates;
    - [JSON]      : [JSON.stringify(v, null, space)] and [JSON.parse];
    - [Path]      : Node's posix [path.join] and [path.dirname];
    - errors, results, and the monad of computations that return or throw;
    - the collaborators ([os], [ProjectDir], [SfdxUtil]) as an interface,
      every call to them being recorded in a trace;
    - the class [Config], over an arbitrary implementation of the
      collaborators;
    - [MemFs]     : an in-memory file system implementing the collaborators;
    - [Spec]      : the vocabulary of the specification;
    - [Footprint] : plain paths, and the path a call is about;
    - [JSONFacts], [PathFacts], [MemFsFacts], [ConfigFacts] : lemmas;
    - [Examples]  : the behaviour on sample worlds;
    - the properties the specification claims;
    - [JoinFacts] : lemmas on joined paths, and the further properties
      of the class built on them. *)

From Stdlib Require Import ZArith List Ascii String Bool Lia.
From Stdlib Require Import Decimal DecimalFacts DecimalPos DecimalN.
From stdpp Require Import base option list strings gmap.

Local Open Scope Z_scope.

(* ===================================================================== *)
(** * JavaScript values *)
(* ===================================================================== *)

Module JS.

(** A JSON-compatible JavaScript value.  Numbers are the integers (the
    fractional doubles are outside this embedding); a string is a sequence
    of 8-bit code units; an object is the list of its own properties in
    enumeration order. *)
#[local] Unset Elimination Schemes.
Inductive json : Type :=
| JNull
| JBool (b : bool)
| JNum (n : Z)
| JStr (s : string)
| JArr (elems : list json)
| JObj (props : list (string * json)).
#[local] Set Elimination Schemes.

(** A value that may be [undefined]: an optional property, an omitted
    argument, a field that was never assigned. *)
Definition any : Type := option json.
Definition undefined : any := None.

(** The empty object literal [{}]. *)
Definition empty_object : json := JObj [].

(** The induction principle that reaches inside arrays and objects. *)
Section Induction.
Variable P : json -> Prop.
Hypothesis Hnull : P JNull.
Hypothesis Hbool : forall b, P (JBool b).
Hypothesis Hnum : forall n, P (JNum n).
Hypothesis Hstr : forall s, P (JStr s).
Hypothesis Harr : forall l, Forall P l -> P (JArr l).
Hypothesis Hobj : forall l, Forall (fun kv => P (snd kv)) l -> P (JObj l).

Fixpoint json_ind (v : json) : P v :=
  match v with
  | JNull => Hnull
  | JBool b => Hbool b
  | JNum n => Hnum n
  | JStr s => Hstr s
  | JArr l =>
      Harr l ((fix go (l : list json) : Forall P l :=
                 match l with
                 | [] => @List.Forall_nil _ P
                 | x :: l' => @List.Forall_cons _ P x l' (json_ind x) (go l')
                 end) l)
  | JObj l =>
      Hobj l ((fix go (l : list (string * json))
                 : Forall (fun kv => P (snd kv)) l :=
                 match l with
                 | [] => @List.Forall_nil _ (fun kv => P (snd kv))
                 | kv :: l' =>
                     @List.Forall_cons _ (fun kv => P (snd kv)) kv l'
                       (json_ind (snd kv)) (go l')
                 end) l)
  end.
End Induction.

(** ToBoolean on a JSON value: [null], [false], [0] and the empty string are falsy,
    every array and every object is truthy. *)
Definition truthy (v : json) : bool :=
  match v with
  | JNull => false
  | JBool b => b
  | JNum n => negb (n =? 0)
  | JStr s => negb (String.eqb s EmptyString)
  | JArr _ | JObj _ => true
  end.

(** ToBoolean on a possibly undefined value. *)
Definition to_boolean (v : any) : bool :=
  match v with
  | None => false
  | Some j => truthy j
  end.

(** lodash [isBoolean]. *)
Definition _isBoolean (v : any) : bool :=
  match v with
  | Some (JBool _) => true
  | _ => false
  end.

(** lodash [isNil]: [undefined] or [null]. *)
Definition _isNil (v : any) : bool :=
  match v with
  | None | Some JNull => true
  | _ => false
  end.

(** [a || b] where [a] may be undefined and [b] is a JSON value. *)
Definition or_else (a : any) (b : json) : json :=
  match a with
  | Some j => if truthy j then j else b
  | None => b
  end.

End JS.
Export JS.

(* ===================================================================== *)
(** * JSON text *)
(* ===================================================================== *)

(** [JSON.stringify] and [JSON.parse] belong to the platform, not to the
    repository: they are written here after their definition in ECMA-262
    (SerializeJSONProperty, QuoteJSONString, the JSON grammar), on the
    values of this embedding.  What the embedding has no value for is
    left out: the reader refuses a number with a fraction or an exponent
    and an escape above [\u00ff], reads the negative zero as zero and an
    integer of any size exactly, and keeps the keys of an object in the
    order of the text; the printer writes every integer digit for digit,
    as JavaScript does for the safe integers.  The properties of the class
    are stated for every implementation of the file system layer, so that
    they do not rest on this reader. *)

Module JSON.

Local Open Scope char_scope.
Local Open Scope list_scope.

Definition text : Type := list ascii.

Definition LF : ascii := "010".
Definition DQUOTE : ascii := "034".
Definition chars (s : string) : text := list_ascii_of_string s.

(** ** Numbers: decimal digits of an integer *)

Fixpoint digits (u : uint) : text :=
  match u with
  | Nil => []
  | D0 u' => "0" :: digits u'
  | D1 u' => "1" :: digits u'
  | D2 u' => "2" :: digits u'
  | D3 u' => "3" :: digits u'
  | D4 u' => "4" :: digits u'
  | D5 u' => "5" :: digits u'
  | D6 u' => "6" :: digits u'
  | D7 u' => "7" :: digits u'
  | D8 u' => "8" :: digits u'
  | D9 u' => "9" :: digits u'
  end.

(** Number::toString on an integer: its decimal digits (as for every
    integer that a double holds exactly and prints without exponent). *)
Definition number (n : Z) : text :=
  match n with
  | Zneg p => "-" :: digits (Pos.to_uint p)
  | _ => digits (N.to_uint (Z.to_N n))
  end.

(** ** Strings: QuoteJSONString *)

Definition hex_digit (n : N) : ascii :=
  match n with
  | 0 => "0" | 1 => "1" | 2 => "2" | 3 => "3" | 4 => "4" | 5 => "5"
  | 6 => "6" | 7 => "7" | 8 => "8" | 9 => "9" | 10 => "a" | 11 => "b"
  | 12 => "c" | 13 => "d" | 14 => "e" | _ => "f"
  end%N.

(** The escape of one code unit: the two-character escapes, [\u00XX] for
    the other control characters, the character itself otherwise. *)
Definition escape (c : ascii) : text :=
  let n := N_of_ascii c in
  if (n =? 8)%N then ["\"; "b"]
  else if (n =? 9)%N then ["\"; "t"]
  else if (n =? 10)%N then ["\"; "n"]
  else if (n =? 12)%N then ["\"; "f"]
  else if (n =? 13)%N then ["\"; "r"]
  else if (n =? 34)%N then ["\"; DQUOTE]
  else if (n =? 92)%N then ["\"; "\"]
  else if (n <? 32)%N then
    ["\"; "u"; "0"; "0"; hex_digit (n / 16); hex_digit (n mod 16)]
  else [c].

Definition quote (s : string) : text :=
  DQUOTE :: concat (map escape (chars s)) ++ [DQUOTE].

(** ** SerializeJSONProperty with an indentation unit of [gap] spaces
    ([gap = 0]: the compact form, no line breaks) *)

Section Serialize.
Variable gap : nat.

Definition indent (level : nat) : text := repeat " " (gap * level).

Definition break (level : nat) : text :=
  match gap with
  | O => []
  | _ => LF :: indent level
  end.

Definition colon : text :=
  match gap with
  | O => [":"]
  | _ => [":"; " "]
  end.

Fixpoint join (sep : text) (items : list text) : text :=
  match items with
  | [] => []
  | [x] => x
  | x :: rest => x ++ sep ++ join sep rest
  end.

(** The common shape of SerializeJSONArray and SerializeJSONObject. *)
Definition wrap (opening closing : ascii) (level : nat) (items : list text)
  : text :=
  match items with
  | [] => [opening; closing]
  | _ => opening :: break (S level)
           ++ join ("," :: break (S level)) items
           ++ break level ++ [closing]
  end.

Fixpoint serialize (level : nat) (v : json) {struct v} : text :=
  match v with
  | JNull => chars "null"
  | JBool true => chars "true"
  | JBool false => chars "false"
  | JNum n => number n
  | JStr s => quote s
  | JArr l => wrap "[" "]" level (map (serialize (S level)) l)
  | JObj l =>
      wrap "{" "}" level
        (map (fun kv => let '(k, x) := kv in
                        quote k ++ colon ++ serialize (S level) x) l)
  end.

End Serialize.

(** [JSON.stringify(value, null, space)] for a numeric [space]: the
    indentation unit is [min(10, space)] spaces. *)
Definition stringify (value : json) (space : nat) : string :=
  string_of_list_ascii (serialize (Nat.min 10 space) 0 value).

(** ** JSON.parse: a recursive-descent reader of the JSON grammar *)

Definition is_ws (c : ascii) : bool :=
  let n := N_of_ascii c in
  ((n =? 32) || (n =? 9) || (n =? 10) || (n =? 13))%N.

Fixpoint skip_ws (s : text) : text :=
  match s with
  | c :: r => if is_ws c then skip_ws r else s
  | [] => []
  end.

Definition digit (c : ascii) : option (uint -> uint) :=
  match N_of_ascii c with
  | 48 => Some D0 | 49 => Some D1 | 50 => Some D2 | 51 => Some D3
  | 52 => Some D4 | 53 => Some D5 | 54 => Some D6 | 55 => Some D7
  | 56 => Some D8 | 57 => Some D9 | _ => None
  end%N.

Fixpoint read_digits (s : text) : uint * text :=
  match s with
  | c :: r =>
      match digit c with
      | Some d => let (u, r') := read_digits r in (d u, r')
      | None => (Nil, s)
      end
  | [] => (Nil, [])
  end.

(** The digits of a JSON integer: at least one, and no leading zero. *)
Definition canonical (u : uint) : bool :=
  match u with
  | Nil => false
  | D0 Nil => true
  | D0 _ => false
  | _ => true
  end.

(** A fraction or an exponent follows the integer part. *)
Definition fractional (r : text) : bool :=
  match r with
  | c :: _ =>
      let n := N_of_ascii c in ((n =? 46) || (n =? 101) || (n =? 69))%N
  | [] => false
  end.

Definition parse_number (s : text) : option (json * text) :=
  let (neg, s1) := match s with
                   | c :: r => if Ascii.eqb c "-" then (true, r) else (false, s)
                   | [] => (false, s)
                   end in
  let (u, r) := read_digits s1 in
  if canonical u && negb (fractional r) then
    let n := Z.of_N (N.of_uint u) in
    Some (JNum (if neg then - n else n), r)
  else None.

Definition hex_val (c : ascii) : option N :=
  let n := N_of_ascii c in
  if ((48 <=? n) && (n <=? 57))%N then Some (n - 48)%N
  else if ((97 <=? n) && (n <=? 102))%N then Some (n - 87)%N
  else if ((65 <=? n) && (n <=? 70))%N then Some (n - 55)%N
  else None.

(** The code unit of a [\uXXXX] escape, when it fits the 8-bit code units
    of this embedding. *)
Definition unicode_escape (h1 h2 h3 h4 : ascii) : option ascii :=
  match hex_val h1, hex_val h2, hex_val h3, hex_val h4 with
  | Some a, Some b, Some c, Some d =>
      if ((a =? 0) && (b =? 0))%N then Some (ascii_of_N (c * 16 + d)) else None
  | _, _, _, _ => None
  end.

Definition simple_escape (e : ascii) : option ascii :=
  match N_of_ascii e with
  | 34 => Some DQUOTE | 92 => Some "\" | 47 => Some "/"
  | 98 => Some "008" | 102 => Some "012" | 110 => Some "010"
  | 114 => Some "013" | 116 => Some "009"
  | _ => None
  end%N.

(** The characters of a string literal after its opening quote, up to and
    including the closing quote. *)
Fixpoint parse_chars (s : text) : option (text * text) :=
  match s with
  | [] => None
  | c :: r =>
      if (N_of_ascii c =? 34)%N then Some ([], r)
      else if (N_of_ascii c =? 92)%N then
        match r with
        | e :: r1 =>
            if (N_of_ascii e =? 117)%N then
              match r1 with
              | h1 :: h2 :: h3 :: h4 :: r2 =>
                  match unicode_escape h1 h2 h3 h4, parse_chars r2 with
                  | Some x, Some (cs, r3) => Some (x :: cs, r3)
                  | _, _ => None
                  end
              | _ => None
              end
            else
              match simple_escape e, parse_chars r1 with
              | Some x, Some (cs, r3) => Some (x :: cs, r3)
              | _, _ => None
              end
        | [] => None
        end
      else if (N_of_ascii c <? 32)%N then None
      else
        match parse_chars r with
        | Some (cs, r3) => Some (c :: cs, r3)
        | None => None
        end
  end.

Definition parse_string (s : text) : option (string * text) :=
  match parse_chars s with
  | Some (cs, r) => Some (string_of_list_ascii cs, r)
  | None => None
  end.

(** Defining a property: a repeated key keeps its first position and takes
    the last value. *)
Fixpoint set_prop (k : string) (v : json) (props : list (string * json))
  : list (string * json) :=
  match props with
  | [] => [(k, v)]
  | (k', v') :: rest =>
      if String.eqb k k' then (k', v) :: rest else (k', v') :: set_prop k v rest
  end.

Definition object_of (members : list (string * json)) : json :=
  JObj (fold_left (fun acc kv => set_prop (fst kv) (snd kv) acc) members []).

(** The rest of [s] after the literal [lit], when [s] starts with it. *)
Fixpoint strip_prefix (lit s : text) : option text :=
  match lit, s with
  | [], _ => Some s
  | a :: lit', c :: s' => if Ascii.eqb a c then strip_prefix lit' s' else None
  | _ :: _, [] => None
  end.

Definition literal (lit : string) (v : json) (s : text) : option (json * text) :=
  match strip_prefix (chars lit) s with
  | Some r => Some (v, r)
  | None => None
  end.

(** [s] starts with the character [c]. *)
Definition starts_with (c : ascii) (s : text) : bool :=
  match s with
  | c' :: _ => Ascii.eqb c' c
  | [] => false
  end.

Fixpoint parse_value (fuel : nat) (s : text) {struct fuel}
  : option (json * text) :=
  match fuel with
  | O => None
  | S fuel' =>
      match skip_ws s with
      | [] => None
      | c :: r =>
          if Ascii.eqb c "n" then literal "ull" JNull r
          else if Ascii.eqb c "t" then literal "rue" (JBool true) r
          else if Ascii.eqb c "f" then literal "alse" (JBool false) r
          else if Ascii.eqb c DQUOTE then
            match parse_string r with
            | Some (str, r') => Some (JStr str, r')
            | None => None
            end
          else if Ascii.eqb c "[" then
            if starts_with "]" (skip_ws r) then Some (JArr [], tl (skip_ws r))
            else match parse_elements fuel' r with
                 | Some (vs, r') => Some (JArr vs, r')
                 | None => None
                 end
          else if Ascii.eqb c "{" then
            if starts_with "}" (skip_ws r) then Some (JObj [], tl (skip_ws r))
            else match parse_members fuel' r with
                 | Some (ms, r') => Some (object_of ms, r')
                 | None => None
                 end
          else parse_number (c :: r)
      end
  end

with parse_elements (fuel : nat) (s : text) {struct fuel}
  : option (list json * text) :=
  match fuel with
  | O => None
  | S fuel' =>
      match parse_value fuel' s with
      | Some (v, r) =>
          if starts_with "," (skip_ws r) then
            match parse_elements fuel' (tl (skip_ws r)) with
            | Some (vs, r') => Some (v :: vs, r')
            | None => None
            end
          else if starts_with "]" (skip_ws r) then Some ([v], tl (skip_ws r))
          else None
      | None => None
      end
  end

with parse_members (fuel : nat) (s : text) {struct fuel}
  : option (list (string * json) * text) :=
  match fuel with
  | O => None
  | S fuel' =>
      if starts_with DQUOTE (skip_ws s) then
        match parse_string (tl (skip_ws s)) with
        | Some (k, r1) =>
            if starts_with ":" (skip_ws r1) then
              match parse_value fuel' (tl (skip_ws r1)) with
              | Some (v, r3) =>
                  if starts_with "," (skip_ws r3) then
                    match parse_members fuel' (tl (skip_ws r3)) with
                    | Some (ms, r5) => Some ((k, v) :: ms, r5)
                    | None => None
                    end
                  else if starts_with "}" (skip_ws r3)
                  then Some ([(k, v)], tl (skip_ws r3))
                  else None
              | None => None
              end
            else None
        | None => None
        end
      else None
  end.

(** ** JSON-representable values *)

Fixpoint distinct (ks : list string) : bool :=
  match ks with
  | [] => true
  | k :: rest => negb (existsb (String.eqb k) rest) && distinct rest
  end.

(** A value is JSON-representable when no object in it has two
    properties of the same name. *)
Fixpoint representable (v : json) : bool :=
  match v with
  | JArr l => forallb representable l
  | JObj l =>
      distinct (map fst l)
      && forallb (fun kv => let '(_, x) := kv in representable x) l
  | _ => true
  end.

(** The fuel that reading a value back takes. *)
Fixpoint need (v : json) : nat :=
  match v with
  | JArr l => S (list_sum (map (fun x => S (need x)) l))
  | JObj l => S (list_sum (map (fun kv => let '(_, x) := kv in S (need x)) l))
  | _ => 1
  end.

(** [JSON.parse(text)]: one value, surrounded by optional white space;
    [None] stands for the SyntaxError. *)
Definition parse (s : string) : option json :=
  let cs := chars s in
  match parse_value (S (length cs)) cs with
  | Some (v, r) =>
      match skip_ws r with
      | [] => Some v
      | _ => None
      end
  | None => None
  end.

(** ** The vocabulary of the round trip through text *)

(** White space only. *)
Definition all_ws (w : text) : Prop := Forall (fun c => is_ws c = true) w.

(** The text does not start with a digit. *)
Definition not_digit (s : text) : Prop :=
  match s with
  | c :: _ => digit c = None
  | [] => True
  end.

(** What may follow a number: neither a digit nor the start of a fraction
    or of an exponent. *)
Definition delimited (s : text) : Prop :=
  not_digit s /\ fractional s = false.

(** The fuel that reading the elements of an array, or the members of an
    object, takes. *)
Definition elements_need (l : list json) : nat :=
  list_sum (map (fun x => S (need x)) l).

Definition members_need (l : list (string * json)) : nat :=
  list_sum (map (fun kv => let '(_, x) := kv in S (need x)) l).

(** The text of one member of an object. *)
Definition member (gap level : nat) (kv : string * json) : text :=
  let '(k, x) := kv in quote k ++ colon gap ++ serialize gap (S level) x.

(** Reading the text of [v] back gives [v], whatever white space comes
    before it and whatever delimited text comes after. *)
Definition roundtrips (gap : nat) (v : json) : Prop :=
  forall level fuel w rest,
    (need v <= fuel)%nat -> all_ws w -> delimited rest ->
    parse_value fuel (w ++ serialize gap level v ++ rest) = Some (v, rest).

End JSON.

(* ===================================================================== *)
(** * Paths: Node's posix [path] module *)
(* ===================================================================== *)

(** [path.join] and [path.dirname] belong to Node: they are written here
    after its posix implementation ([normalizeString], [join],
    [dirname]). *)

Module Path.

Import JSON.
Local Open Scope char_scope.
Local Open Scope list_scope.

Definition is_slash (c : ascii) : bool := (N_of_ascii c =? 47)%N.

(** The segments between the slashes of a path, empty ones included. *)
Fixpoint segments (s : text) : list text :=
  match s with
  | [] => [[]]
  | c :: r =>
      if is_slash c then [] :: segments r
      else match segments r with
           | seg :: rest => (c :: seg) :: rest
           | [] => [[c]]
           end
  end.

Definition is_dot (seg : text) : bool :=
  match seg with ["."] => true | _ => false end.

Definition is_dotdot (seg : text) : bool :=
  match seg with ["."; "."] => true | _ => false end.

(** [normalizeString]: drops the empty and [.] segments and resolves the
    [..] segments; [stack] holds the segments kept so far, last one first. *)
Fixpoint normalize_segments (allowAboveRoot : bool) (stack : list text)
  (segs : list text) : list text :=
  match segs with
  | [] => rev stack
  | seg :: rest =>
      if match seg with [] => true | _ => false end || is_dot seg then
        normalize_segments allowAboveRoot stack rest
      else if is_dotdot seg then
        match stack with
        | top :: below =>
            if is_dotdot top then
              normalize_segments allowAboveRoot
                (if allowAboveRoot then seg :: stack else stack) rest
            else normalize_segments allowAboveRoot below rest
        | [] =>
            normalize_segments allowAboveRoot
              (if allowAboveRoot then [seg] else []) rest
        end
      else normalize_segments allowAboveRoot (seg :: stack) rest
  end.

Fixpoint unsegments (segs : list text) : text :=
  match segs with
  | [] => []
  | [seg] => seg
  | seg :: rest => seg ++ "/" :: unsegments rest
  end.

Definition normalize_text (p : text) : text :=
  match p with
  | [] => ["."]
  | c :: _ =>
      let isAbsolute := is_slash c in
      let trailingSeparator :=
        is_slash (List.last p ".") in
      let body := unsegments
                    (normalize_segments (negb isAbsolute) [] (segments p)) in
      match body with
      | [] => if isAbsolute then ["/"]
              else if trailingSeparator then ["."; "/"] else ["."]
      | _ => (if isAbsolute then ["/"] else [])
               ++ body ++ (if trailingSeparator then ["/"] else [])
      end
  end.

(** [path.join(...args)]: the non-empty arguments joined by slashes, then
    normalised; ["."] when nothing is left. *)
Definition pathJoin (args : list string) : string :=
  let parts := filter (fun a => negb (String.eqb a EmptyString)) args in
  string_of_list_ascii
    (normalize_text (unsegments (map list_ascii_of_string parts))).

Fixpoint dropwhile (f : ascii -> bool) (s : text) : text :=
  match s with
  | c :: r => if f c then dropwhile f r else s
  | [] => []
  end.

(** [path.dirname(path)]: the scan runs from the end of the path down to
    index 1; [rtail] is that part of the path, reversed. *)
Definition dirname_text (p : text) : text :=
  match p with
  | [] => ["."]
  | c0 :: tail =>
      let hasRoot := is_slash c0 in
      let rtail := rev tail in
      let after_slashes := dropwhile is_slash rtail in
      let after_name := dropwhile (fun c => negb (is_slash c)) after_slashes in
      match after_name with
      | [] => if hasRoot then ["/"] else ["."]
      | _ :: before =>
          match before with
          | [] => if hasRoot then ["/"; "/"] else [c0]
          | _ => c0 :: rev before
          end
      end
  end.

Definition pathDirname (p : string) : string :=
  string_of_list_ascii (dirname_text (list_ascii_of_string p)).

End Path.

(* ===================================================================== *)
(** * Errors, results and the state monad of the class *)
(* ===================================================================== *)

(** A thrown JavaScript error: its [name], its [message], and the [code]
    that Node's system errors carry (['ENOENT'], ['EACCES'], ...). *)
Record error : Type := Error {
  name : string;
  message : string;
  code : option string
}.

(** [new SfdxError(message, name)]: an error without a system code. *)
Definition SfdxError (message name : string) : error :=
  Error name message None.

(** [err.code === c] *)
Definition has_code (err : error) (c : string) : bool :=
  match code err with
  | Some c' => String.eqb c' c
  | None => false
  end.

Inductive result (A : Type) : Type :=
| Ok (value : A)
| Throw (err : error).
Arguments Ok {A} value.
Arguments Throw {A} err.

(** A computation over a state [S] that returns a value or throws; the
    state reached when an error is thrown is kept. *)
Definition M (S A : Type) : Type := S -> result A * S.

Definition ret {S A} (a : A) : M S A := fun s => (Ok a, s).

Definition throw {S A} (e : error) : M S A := fun s => (Throw e, s).

Definition bind {S A B} (m : M S A) (k : A -> M S B) : M S B :=
  fun s => match m s with
           | (Ok a, s') => k a s'
           | (Throw e, s') => (Throw e, s')
           end.

(** [try { m } catch (err) { handler(err) }] *)
Definition try_catch {S A} (m : M S A) (handler : error -> M S A) : M S A :=
  fun s => match m s with
           | (Ok a, s') => (Ok a, s')
           | (Throw e, s') => handler e s'
           end.

Definition gets {S A} (f : S -> A) : M S A := fun s => (Ok (f s), s).

Definition modify {S} (f : S -> S) : M S unit := fun s => (Ok tt, f s).

Declare Scope monad_scope.
Delimit Scope monad_scope with monad.
Notation "x <- m ;; k" := (bind m (fun x => k))
  (at level 100, m at next level, right associativity) : monad_scope.
Notation "m ;; k" := (bind m (fun _ => k))
  (at level 100, right associativity) : monad_scope.

(* ===================================================================== *)
(** * The collaborators of the class *)
(* ===================================================================== *)

(** The part of [fs.Stats] that the embedding keeps. *)
Record fsStats : Type := Stats {
  st_mode : Z;
  st_size : Z;
  st_isDirectory : bool
}.

(** The calls the class makes outside itself, indexed by the type of
    what they return: [os.homedir()], [ProjectDir.getPath()] and the
    promise-returning functions of [SfdxUtil]. *)
Inductive Op : Type -> Type :=
| osHomedir : Op string
| ProjectDir_getPath : Op string
| SfdxUtil_access (path : string) (perm : Z) : Op unit
| SfdxUtil_readJSON (path : string) : Op json
| SfdxUtil_mkdirp (path : string) : Op unit
| SfdxUtil_writeFile (path : string) (data : string) : Op unit
| SfdxUtil_stat (path : string) : Op fsStats
| SfdxUtil_unlink (path : string) : Op unit.

(** One call, as recorded in the trace. *)
Inductive event : Type :=
| Called {X : Type} (op : Op X).

(** An implementation of the collaborators over a world [W]: each call
    returns or throws, and leaves a new world. *)
Class Collaborators (W : Type) : Type :=
  perform : forall X : Type, Op X -> W -> result X * W.
Arguments perform {W _ X} op w.

(** The outside of a [Config]: the world, and the calls made so far. *)
Record env (W : Type) : Type := Env {
  world : W;
  trace : list event
}.
Arguments Env {W} world trace.
Arguments world {W} e.
Arguments trace {W} e.

(** [fsConstants.R_OK] *)
Definition R_OK : Z := 4.

Module Global.
(** Modelled from the spec: [Global.STATE_FOLDER] is declared in
    [../global], which is not part of the sources at hand; the spec calls it
    a fixed, process-wide hidden-folder name, and the comment of the class
    names the folder [.sfdx]. *)
Definition STATE_FOLDER : string := ".sfdx".
End Global.

(* ===================================================================== *)
(** * The class [Config] *)
(* ===================================================================== *)

(** The interface [ConfigOptions].  Every property is optional; [isGlobal]
    and [isState] are declared boolean but tested at run time with
    [_isBoolean], so they hold any value. *)
Record ConfigOptions : Type := {
  rootFolder : option string;
  filename : option string;
  isGlobal : any;
  isState : any;
  filePath : option string
}.

(** An instance that [Config.create] has returned: its three private
    fields. *)
Record Config : Type := {
  options : ConfigOptions;
  path : string;
  contents : any
}.

(** The state an instance method runs in: the instance and its outside. *)
Record state (W : Type) : Type := State {
  this : Config;
  outside : env W
}.
Arguments State {W} this outside.
Arguments this {W} s.
Arguments outside {W} s.

(** The value of an optional string in a condition: [undefined] and the
    empty string are falsy. *)
Definition nonempty (s : option string) : option string :=
  match s with
  | Some str => if String.eqb str EmptyString then None else Some str
  | None => None
  end.

Section Class.
Context {W : Type} {collaborators : Collaborators W}.

Local Open Scope monad_scope.
Local Open Scope string_scope.

(** A call to a collaborator: performed on the world, and recorded. *)
Definition call {X : Type} (op : Op X) : M (env W) X :=
  fun e =>
    let (r, w) := perform op (world e) in
    (r, Env w (trace e ++ [Called op])).

(** The same call, from inside an instance method. *)
Definition await {X : Type} (op : Op X) : M (state W) X :=
  fun s =>
    let (r, e) := call op (outside s) in
    (r, State (this s) e).

(** ** Static methods *)

Definition resolveRootFolder (isGlobal : any) : M (env W) string :=
  if negb (_isBoolean isGlobal) then
    throw (SfdxError "isGlobal must be a boolean" "InvalidTypeForIsGlobal")
  else if to_boolean isGlobal then call osHomedir
  else call ProjectDir_getPath.

Definition create (options : ConfigOptions) : M (env W) Config :=
  match nonempty (filename options) with
  | None =>
      throw (SfdxError "The ConfigOptions filename parameter is invalid."
               "InvalidParameter")
  | Some filename =>
      let _isGlobal :=
        _isBoolean (isGlobal options) && to_boolean (isGlobal options) in
      let _isState :=
        _isBoolean (isState options) && to_boolean (isState options) in
      configRootFolder <-
        match nonempty (rootFolder options) with
        | Some rootFolder => ret rootFolder
        | None => resolveRootFolder (isGlobal options)
        end ;;
      let configRootFolder :=
        if _isGlobal || _isState
        then Path.pathJoin [configRootFolder; Global.STATE_FOLDER]
        else configRootFolder in
      ret {| options := options;
             path := Path.pathJoin
                       [configRootFolder;
                        match nonempty (filePath options) with
                        | Some filePath => filePath
                        | None => EmptyString
                        end;
                        filename];
             contents := undefined |}
  end.

(** ** Accessors *)

Definition getPath (c : Config) : string := path c.

Definition getContents (c : Config) : json := or_else (contents c) empty_object.

Definition getIsGlobal (c : Config) : any := isGlobal (options c).

Definition setContents (value : any) : M (state W) unit :=
  modify (fun s =>
            State {| options := options (this s);
                     path := path (this s);
                     contents := value |} (outside s)).

(** ** Instance methods *)

Definition access (perm : Z) : M (state W) bool :=
  try_catch
    (p <- gets (fun s => getPath (this s)) ;;
     await (SfdxUtil_access p perm) ;;
     ret true)
    (fun err => ret false).

Definition read (throwOnNotFound : bool) : M (state W) any :=
  try_catch
    (p <- gets (fun s => getPath (this s)) ;;
     v <- await (SfdxUtil_readJSON p) ;;
     setContents (Some v) ;;
     gets (fun s => contents (this s)))
    (fun err =>
       if has_code err "ENOENT" then
         if negb throwOnNotFound then
           setContents (Some empty_object) ;;
           gets (fun s => contents (this s))
         else throw err
       else throw err).

(** [read]'s parameter defaults to [false], [readJSON]'s to [true]. *)
Definition read_default : M (state W) any := read false.

Definition readJSON (throwOnNotFound : bool) : M (state W) any :=
  read throwOnNotFound.

Definition readJSON_default : M (state W) any := readJSON true.

Definition write (newContents : any) : M (state W) json :=
  (if negb (_isNil newContents) then setContents newContents else ret tt) ;;
  p <- gets (fun s => getPath (this s)) ;;
  await (SfdxUtil_mkdirp (Path.pathDirname p)) ;;
  p <- gets (fun s => getPath (this s)) ;;
  c <- gets (fun s => getContents (this s)) ;;
  await (SfdxUtil_writeFile p (JSON.stringify c 4)) ;;
  gets (fun s => getContents (this s)).

Definition exists_ : M (state W) bool := access R_OK.

Definition stat : M (state W) fsStats :=
  p <- gets (fun s => getPath (this s)) ;;
  await (SfdxUtil_stat p).

Definition unlink : M (state W) unit :=
  exists_ <- exists_ ;;
  if exists_ then
    p <- gets (fun s => getPath (this s)) ;;
    await (SfdxUtil_unlink p)
  else
    p <- gets (fun s => getPath (this s)) ;;
    throw (SfdxError ("Target file doesn't exist. path: " ++ p)
             "TargetFileNotFound").

End Class.

(* ===================================================================== *)
(** * An in-memory file system for the collaborators *)
(* ===================================================================== *)

(** The functions of [SfdxUtil] and [ProjectDir] are declared in files
    of the repository that are not at hand ([../util], [../projectDir]).
    This module gives them a meaning on a small file system: a map from
    paths, taken as they are written, to files and directories. *)

Module MemFs.

Import Path.
Local Open Scope string_scope.

(** A regular file with its permission bits and its text, or a
    directory. *)
Inductive node : Type :=
| File (mode : Z) (data : string)
| Dir.

(** The world: the nodes by path, the home directory of the user, and the
    project root when the process runs inside a project. *)
Record fs : Type := Fs {
  nodes : gmap string node;
  homedir : string;
  projectRoot : option string
}.

Definition SystemError (code path : string) : error :=
  Error "Error" (code ++ ": " ++ path) (Some code).

(** The root and the working directory always exist. *)
Definition is_root (p : string) : bool :=
  String.eqb p "/" || String.eqb p ".".

Definition lookup_node (p : string) (w : fs) : option node :=
  if is_root p then Some Dir else nodes w !! p.

Definition with_nodes (f : gmap string node -> gmap string node) (w : fs) : fs :=
  Fs (f (nodes w)) (homedir w) (projectRoot w).

(** The permission bits of the owner grant [perm]. *)
Definition permits (mode perm : Z) : bool :=
  Z.eqb (Z.land (Z.land (Z.shiftr mode 6) 7) perm) perm.

(** Modelled from the spec: [access(path, perm) -> fails on
    denial/absence]; [SfdxUtil.access] is declared in [../util], which is
    not part of the sources at hand. *)
Definition fs_access (p : string) (perm : Z) (w : fs) : result unit :=
  if Z.ltb perm 0 || Z.ltb 7 perm then
    Throw (Error "RangeError" "mode is out of range" (Some "ERR_OUT_OF_RANGE"))
  else
    match lookup_node p w with
    | None => Throw (SystemError "ENOENT" p)
    | Some Dir => Ok tt
    | Some (File mode _) =>
        if permits mode perm then Ok tt else Throw (SystemError "EACCES" p)
    end.

(** Modelled from the spec: [readFile(path) -> bytes, fails NotFound if
    absent]. *)
Definition fs_readFile (p : string) (w : fs) : result string :=
  match lookup_node p w with
  | None => Throw (SystemError "ENOENT" p)
  | Some Dir => Throw (SystemError "EISDIR" p)
  | Some (File mode data) =>
      if permits mode 4 then Ok data else Throw (SystemError "EACCES" p)
  end.

(** Modelled from the spec: [Read] "loads and parses the file as JSON";
    a text that is not JSON is a parse error, which carries no code. *)
Definition fs_readJSON (p : string) (w : fs) : result json :=
  match fs_readFile p w with
  | Ok data =>
      match JSON.parse data with
      | Some v => Ok v
      | None => Throw (SfdxError ("Parse error in file " ++ p) "JsonParseError")
      end
  | Throw e => Throw e
  end.

(** The path and the directories above it, the nearest first, up to the
    root or the working directory. *)
Fixpoint chain (fuel : nat) (p : string) : list string :=
  match fuel with
  | O => []
  | S fuel' => if is_root p then [] else p :: chain fuel' (pathDirname p)
  end.

Definition ancestors (p : string) : list string :=
  chain (S (String.length p)) p.

(** Creates the directories of [dirs], the topmost being the last of the
    list; an existing directory is left as it is. *)
Fixpoint make_dirs (dirs : list string) (m : gmap string node)
  : result (gmap string node) :=
  match dirs with
  | [] => Ok m
  | d :: above =>
      match make_dirs above m with
      | Ok m' =>
          match m' !! d with
          | None => Ok (<[d := Dir]> m')
          | Some Dir => Ok m'
          | Some (File _ _) => Throw (SystemError "EEXIST" d)
          end
      | Throw e => Throw e
      end
  end.

(** Modelled from the spec: [mkdirRecursive(path)], the "idempotent
    recursive creation" of a directory and of its whole parent chain. *)
Definition fs_mkdirp (p : string) (w : fs) : result unit * fs :=
  match make_dirs (ancestors p) (nodes w) with
  | Ok m => (Ok tt, with_nodes (fun _ => m) w)
  | Throw e => (Throw e, w)
  end.

(** Modelled from the spec: [writeFile(path, bytes)], a "full-file
    overwrite"; the directory of the file must exist, a new file is
    created with mode 0644. *)
Definition fs_writeFile (p data : string) (w : fs) : result unit * fs :=
  match lookup_node (pathDirname p) w with
  | Some Dir =>
      match lookup_node p w with
      | Some Dir => (Throw (SystemError "EISDIR" p), w)
      | Some (File mode _) =>
          if permits mode 2
          then (Ok tt, with_nodes (insert p (File mode data)) w)
          else (Throw (SystemError "EACCES" p), w)
      | None => (Ok tt, with_nodes (insert p (File 420 data)) w)
      end
  | Some (File _ _) => (Throw (SystemError "ENOTDIR" p), w)
  | None => (Throw (SystemError "ENOENT" p), w)
  end.

(** The number of bytes of a text in UTF-8, the encoding of the file: one
    byte for a code unit below U+0080, two for the others. *)
Fixpoint utf8_length (data : string) : Z :=
  match data with
  | EmptyString => 0
  | String c rest =>
      (if (N_of_ascii c <? 128)%N then 1 else 2) + utf8_length rest
  end.

(** The file-type bits of [st_mode]: a regular file (0100000), a
    directory (0040000). *)
Definition S_IFREG : Z := 32768.
Definition S_IFDIR : Z := 16384.

(** Modelled from the spec: [stat(path) -> metadata].  The mode carries
    the type of the node and its permission bits, the size of a file is
    its length in bytes; the size of a directory depends on the file
    system and is left at 0. *)
Definition fs_stat (p : string) (w : fs) : result fsStats :=
  match lookup_node p w with
  | None => Throw (SystemError "ENOENT" p)
  | Some Dir => Ok (Stats (S_IFDIR + 493) 0 true)
  | Some (File mode data) =>
      Ok (Stats (S_IFREG + mode) (utf8_length data) false)
  end.

(** Modelled from the spec: [unlink(path)]. *)
Definition fs_unlink (p : string) (w : fs) : result unit * fs :=
  match lookup_node p w with
  | None => (Throw (SystemError "ENOENT" p), w)
  | Some Dir => (Throw (SystemError "EISDIR" p), w)
  | Some (File _ _) => (Ok tt, with_nodes (delete p) w)
  end.

(** Modelled from the spec: [resolveProjectRoot() -> path], "fails if none
    found". *)
Definition fs_projectRoot (w : fs) : result string :=
  match projectRoot w with
  | Some root => Ok root
  | None =>
      Throw (SfdxError "This directory does not contain a valid project."
               "InvalidProjectWorkspace")
  end.

#[export] Instance memfs : Collaborators fs :=
  fun X op =>
    match op in Op X return fs -> result X * fs with
    | osHomedir => fun w => (Ok (homedir w), w)
    | ProjectDir_getPath => fun w => (fs_projectRoot w, w)
    | SfdxUtil_access p perm => fun w => (fs_access p perm w, w)
    | SfdxUtil_readJSON p => fun w => (fs_readJSON p w, w)
    | SfdxUtil_mkdirp p => fs_mkdirp p
    | SfdxUtil_writeFile p data => fs_writeFile p data
    | SfdxUtil_stat p => fun w => (fs_stat p w, w)
    | SfdxUtil_unlink p => fs_unlink p
    end.

End MemFs.

(* ===================================================================== *)
(** * The statements of the specification *)
(* ===================================================================== *)

Module Spec.

Import MemFs.
Local Open Scope string_scope.

(** ** Path construction, in the words of the specification *)

(** The effective value of [isGlobal] / [isState]: false when the option
    is not a boolean. *)
Definition effective (v : any) : bool :=
  match v with
  | Some (JBool b) => b
  | _ => false
  end.

(** The base root: the caller-supplied [rootFolder] if given, otherwise
    the resolved root, with the state folder appended when the effective
    [isGlobal] or [isState] is true. *)
Definition spec_root (options : ConfigOptions) (resolved : string) : string :=
  let base := match nonempty (rootFolder options) with
              | Some rootFolder => rootFolder
              | None => resolved
              end in
  if effective (isGlobal options) || effective (isState options)
  then Path.pathJoin [base; Global.STATE_FOLDER]
  else base.

(** Final path = join(root, optional filePath subdirectory, filename). *)
Definition spec_path (options : ConfigOptions) (resolved filename : string)
  : string :=
  Path.pathJoin [spec_root options resolved;
                 match nonempty (filePath options) with
                 | Some filePath => filePath
                 | None => EmptyString
                 end;
                 filename].

Section Generic.
Context {W : Type} {collaborators : Collaborators W}.

(** The resolved root: the home directory when [isGlobal] is true, the
    project root otherwise; no resolution takes place when the caller
    supplies [rootFolder]. *)
Definition resolves (options : ConfigOptions) (e : env W) (resolved : string)
  (e' : env W) : Prop :=
  match nonempty (rootFolder options) with
  | Some _ => e' = e
  | None =>
      if effective (isGlobal options)
      then call osHomedir e = (Ok resolved, e')
      else call ProjectDir_getPath e = (Ok resolved, e')
  end.

(** ** The life of an instance: any sequence of calls of its methods *)

Inductive invocation : Type :=
| call_access (perm : Z)
| call_read (throwOnNotFound : bool)
| call_readJSON (throwOnNotFound : bool)
| call_write (newContents : any)
| call_exists
| call_stat
| call_unlink
| call_setContents (value : any).

(** The state after one call, whether it returned or threw. *)
Definition invoke (i : invocation) (s : state W) : state W :=
  match i with
  | call_access perm => snd (access perm s)
  | call_read throwOnNotFound => snd (read throwOnNotFound s)
  | call_readJSON throwOnNotFound => snd (readJSON throwOnNotFound s)
  | call_write newContents => snd (write newContents s)
  | call_exists => snd (exists_ s)
  | call_stat => snd (stat s)
  | call_unlink => snd (unlink s)
  | call_setContents value => snd (setContents value s)
  end.

Definition lifetime (calls : list invocation) (s : state W) : state W :=
  fold_left (fun s i => invoke i s) calls s.

(** The instance with its contents replaced. *)
Definition with_contents (value : any) (c : Config) : Config :=
  {| options := options c; path := path c; contents := value |}.

(** The instance after [write] has looked at its argument. *)
Definition written (newContents : any) (c : Config) : Config :=
  if _isNil newContents then c else with_contents newContents c.

(** Two states of one instance: same path, same options. *)
Definition same_identity (c c' : Config) : Prop :=
  path c' = path c /\ options c' = options c.

(** The outside after one more call that left the world [w]. *)
Definition after {X : Type} (op : Op X) (w : W) (e : env W) : env W :=
  Env w (trace e ++ [Called op]).

End Generic.

(** ** Claims that the code does not meet, as they are stated *)

(** The round-trip law at a value [X], from the state [s]. *)
Definition roundtrip_law (X : json) (s : state fs) : Prop :=
  forall v s1,
    write (Some X) s = (Ok v, s1) -> fst (read false s1) = Ok (Some X).

(** "TargetFileNotFound is raised iff the unlink target is absent". *)
Definition unlink_absent_iff (s : state fs) : Prop :=
  (exists err, fst (unlink s) = Throw err /\ name err = "TargetFileNotFound")
  <-> lookup_node (getPath (this s)) (world (outside s)) = None.

(** "Config.create treats a non-boolean isGlobal as false: creation does
    not fail with an InvalidType error." *)
Definition tolerates_non_boolean (options : ConfigOptions) (e : env fs) : Prop :=
  forall err,
    fst (create options e) = Throw err -> name err <> "InvalidTypeForIsGlobal".

(** ** Sample worlds *)

(** A machine with an empty disk, a home directory and a project. *)
Definition empty_disk : fs := Fs ∅ "/home/user" (Some "/work/project").

(** Options that name the file only. *)
Definition filename_only : ConfigOptions :=
  {| rootFolder := None; filename := Some "config.json";
     isGlobal := undefined; isState := undefined; filePath := None |}.

(** A global configuration file. *)
Definition global_options : ConfigOptions :=
  {| rootFolder := None; filename := Some "config.json";
     isGlobal := Some (JBool true); isState := undefined; filePath := None |}.

(** A file under a root that the caller supplies. *)
Definition rooted_options : ConfigOptions :=
  {| rootFolder := Some "/tmp/root"; filename := Some "config.json";
     isGlobal := undefined; isState := undefined; filePath := None |}.

(** A project-local state file in a subdirectory. *)
Definition local_state_options : ConfigOptions :=
  {| rootFolder := None; filename := Some "config.json";
     isGlobal := Some (JBool false); isState := Some (JBool true);
     filePath := Some "sub" |}.

(** A project-local file outside the state folder. *)
Definition local_options : ConfigOptions :=
  {| rootFolder := None; filename := Some "config.json";
     isGlobal := Some (JBool false); isState := Some (JBool false);
     filePath := None |}.

Definition global_config : Config :=
  {| options := global_options;
     path := "/home/user/.sfdx/config.json";
     contents := undefined |}.

Definition rooted_config : Config :=
  {| options := rooted_options;
     path := "/tmp/root/config.json";
     contents := undefined |}.

(** A fresh global configuration on the empty disk. *)
Definition fresh : state fs := State global_config (Env empty_disk []).

(** A disk where the configuration file exists but cannot be read
    (mode 0200). *)
Definition unreadable_disk : fs :=
  Fs {[ "/tmp" := Dir; "/tmp/root" := Dir;
        "/tmp/root/config.json" := File 128 "{}" ]}
     "/home/user" None.

Definition unreadable : state fs := State rooted_config (Env unreadable_disk []).

End Spec.

(* ===================================================================== *)
(** * Further vocabulary: plain paths, and what a call touches *)
(* ===================================================================== *)

Module Footprint.

Import JSON Path Spec.
Local Open Scope string_scope.

(** ** Paths made of plain segments *)

(** A plain segment: not empty, without a slash, and neither [.] nor
    [..]. *)
Definition plain_text (seg : text) : bool :=
  match seg with
  | [] => false
  | _ => forallb (fun c => negb (is_slash c)) seg
         && negb (is_dot seg) && negb (is_dotdot seg)
  end.

Definition plain (seg : string) : bool := plain_text (list_ascii_of_string seg).

(** The relative path [s1/s2/.../sn]; the empty string for no segment. *)
Definition relative (segs : list string) : string :=
  string_of_list_ascii (unsegments (map list_ascii_of_string segs)).

(** The absolute path [/s1/s2/.../sn]; the root for no segment. *)
Definition absolute (segs : list string) : string :=
  String "/" (relative segs).

(** ** The path a call is about *)

(** The path that a call to [SfdxUtil] names; the two locators name
    none. *)
Definition target (ev : event) : option string :=
  match ev with
  | Called op =>
      match op with
      | osHomedir => None
      | ProjectDir_getPath => None
      | SfdxUtil_access p _ => Some p
      | SfdxUtil_readJSON p => Some p
      | SfdxUtil_mkdirp p => Some p
      | SfdxUtil_writeFile p _ => Some p
      | SfdxUtil_stat p => Some p
      | SfdxUtil_unlink p => Some p
      end
  end.

(** The call is about the file of the instance, or about the directory
    of that file. *)
Definition within (c : Config) (ev : event) : Prop :=
  target ev = Some (getPath c)
  \/ target ev = Some (pathDirname (getPath c)).

(** The call is one of the two locators of the root folder. *)
Definition is_locator (ev : event) : bool :=
  match ev with
  | Called op =>
      match op with
      | osHomedir | ProjectDir_getPath => true
      | _ => false
      end
  end.

(** The methods that neither read nor write the contents. *)
Definition leaves_contents (i : invocation) : bool :=
  match i with
  | call_access _ | call_exists | call_stat | call_unlink => true
  | _ => false
  end.

(** The errors that [Config.create] raises itself. *)
Definition InvalidParameter : error :=
  SfdxError "The ConfigOptions filename parameter is invalid."
    "InvalidParameter".

Definition InvalidTypeForIsGlobal : error :=
  SfdxError "isGlobal must be a boolean" "InvalidTypeForIsGlobal".

(** ** Values that JavaScript holds exactly *)


(** ** More sample worlds *)

(** A disk where the configuration file may be read but not written
    (mode 0444). *)
Definition readonly_disk : MemFs.fs :=
  MemFs.Fs {[ "/tmp" := MemFs.Dir; "/tmp/root" := MemFs.Dir;
              "/tmp/root/config.json" := MemFs.File 292 "{}" ]}
    "/home/user" None.

Definition readonly : state MemFs.fs :=
  State rooted_config (Env readonly_disk []).

(** A disk where a file stands in the place of the root folder. *)
Definition blocked_disk : MemFs.fs :=
  MemFs.Fs {[ "/tmp" := MemFs.Dir; "/tmp/root" := MemFs.File 420 "x" ]}
    "/home/user" None.

Definition blocked : state MemFs.fs :=
  State rooted_config (Env blocked_disk []).

End Footprint.

(* ===================================================================== *)
(** * Facts about JSON text: reading back what was written *)
(* ===================================================================== *)

Module JSONFacts.
Import JSON.
Local Open Scope char_scope.
Local Open Scope list_scope.

(** ** White space *)

Lemma skip_ws_app w s : all_ws w -> skip_ws (w ++ s) = skip_ws s.
Proof.
  induction 1 as [|c w Hc _ IH]; simpl; [reflexivity|]. now rewrite Hc.
Qed.

Lemma skip_ws_stop c s : is_ws c = false -> skip_ws (c :: s) = c :: s.
Proof. intros H. simpl. now rewrite H. Qed.

Lemma all_ws_indent gap level : all_ws (indent gap level).
Proof.
  unfold indent. induction (gap * level)%nat; simpl; constructor; auto.
Qed.

Lemma all_ws_break gap level : all_ws (break gap level).
Proof.
  unfold break. destruct gap; [constructor|].
  constructor; [reflexivity|apply all_ws_indent].
Qed.

(** ** Numbers: the digits written are the digits read *)

Lemma read_digits_digits u rest :
  not_digit rest -> read_digits (digits u ++ rest) = (u, rest).
Proof.
  intros Hrest.
  induction u; simpl; try (rewrite IHu; reflexivity).
  destruct rest as [|c r]; [reflexivity|]. simpl in *. now rewrite Hrest.
Qed.

Lemma unorm_D0 u v : unorm u = D0 v -> v = Nil.
Proof.
  induction u; simpl; intros H; try discriminate; auto.
  now inversion H.
Qed.

Lemma canonical_unorm u : unorm u = u -> canonical u = true.
Proof.
  destruct u; simpl; intros H; try reflexivity; try discriminate.
  apply unorm_D0 in H. now subst.
Qed.

Lemma canonical_to_uint p : canonical (Pos.to_uint p) = true.
Proof.
  apply canonical_unorm.
  pose proof (DecimalPos.Unsigned.to_of (Pos.to_uint p)) as H.
  rewrite DecimalPos.Unsigned.of_to in H. simpl in H. congruence.
Qed.

Lemma digits_head p :
  exists c t, digits (Pos.to_uint p) = c :: t
              /\ Ascii.eqb c "-" = false /\ is_ws c = false
              /\ Ascii.eqb c "n" = false /\ Ascii.eqb c "t" = false
              /\ Ascii.eqb c "f" = false /\ Ascii.eqb c DQUOTE = false
              /\ Ascii.eqb c "[" = false /\ Ascii.eqb c "{" = false
              /\ Ascii.eqb c "]" = false /\ Ascii.eqb c "}" = false.
Proof.
  pose proof (DecimalPos.Unsigned.to_uint_nonnil p) as Hnil.
  destruct (Pos.to_uint p); [congruence| ..]; simpl;
    eexists _, _; (split; [reflexivity|]); repeat split; reflexivity.
Qed.

Lemma parse_number_pos p rest :
  delimited rest ->
  parse_number (digits (Pos.to_uint p) ++ rest) = Some (JNum (Zpos p), rest).
Proof.
  intros [Hd Hf]. unfold parse_number.
  destruct (digits_head p) as (c & t & Hct & Hminus & _).
  rewrite Hct. simpl app. cbv iota. rewrite Hminus.
  change (c :: t ++ rest) with ((c :: t) ++ rest). rewrite <- Hct.
  rewrite read_digits_digits by assumption.
  rewrite canonical_to_uint, Hf. simpl.
  change (N.of_uint (Pos.to_uint p)) with (Pos.of_uint (Pos.to_uint p)).
  now rewrite DecimalPos.Unsigned.of_to.
Qed.

Lemma parse_number_number n rest :
  delimited rest -> parse_number (number n ++ rest) = Some (JNum n, rest).
Proof.
  intros Hrest. destruct n as [|p|p].
  - destruct Hrest as [Hd Hf].
    pose proof (read_digits_digits (D0 Nil) rest Hd) as E.
    change (number 0 ++ rest) with ("0" :: rest).
    change (digits (D0 Nil) ++ rest) with ("0" :: rest) in E.
    unfold parse_number. cbv iota.
    change (Ascii.eqb "0" "-") with false. cbv iota.
    rewrite E, Hf. reflexivity.
  - simpl. now apply parse_number_pos.
  - destruct Hrest as [Hd Hf]. unfold parse_number.
    change (number (Z.neg p) ++ rest)
      with ("-" :: digits (Pos.to_uint p) ++ rest).
    cbv iota. change (Ascii.eqb "-" "-") with true. cbv iota.
    rewrite read_digits_digits by assumption.
    rewrite canonical_to_uint, Hf. simpl.
    change (N.of_uint (Pos.to_uint p)) with (Pos.of_uint (Pos.to_uint p)).
    now rewrite DecimalPos.Unsigned.of_to.
Qed.

(** ** Strings: every escape is undone *)

Lemma parse_chars_escape cs rest :
  parse_chars (concat (map escape cs) ++ DQUOTE :: rest) = Some (cs, rest).
Proof.
  induction cs as [|c cs IH]; [reflexivity|].
  simpl map. simpl concat. rewrite <- app_assoc.
  set (tail := concat (map escape cs) ++ DQUOTE :: rest) in *.
  destruct c as [[] [] [] [] [] [] [] []];
    match goal with
    | |- context [escape ?c] =>
        let e := eval vm_compute in (escape c) in change (escape c) with e
    end; cbn; rewrite IH; reflexivity.
Qed.

Lemma parse_string_quote s rest t :
  quote s ++ rest = DQUOTE :: t -> parse_string t = Some (s, rest).
Proof.
  unfold quote. simpl. intros [= <-]. unfold parse_string.
  rewrite <- app_assoc. simpl. rewrite parse_chars_escape.
  unfold chars. now rewrite string_of_list_ascii_of_string.
Qed.

(** ** Values *)

Lemma serialize_head gap level v :
  exists c t, serialize gap level v = c :: t
              /\ is_ws c = false
              /\ Ascii.eqb c "]" = false /\ Ascii.eqb c "}" = false.
Proof.
  destruct v as [|[]|n|s|l|l]; simpl;
    try (eexists _, _; split; [reflexivity|]; repeat split; reflexivity).
  - destruct n as [|p|p]; simpl.
    + eexists _, _; split; [reflexivity|]; repeat split; reflexivity.
    + destruct (digits_head p) as (c & t & -> & H). exists c, t. tauto.
    + eexists _, _; split; [reflexivity|]; repeat split; reflexivity.
  - destruct (map _ l); simpl;
      eexists _, _; split; try reflexivity; repeat split; reflexivity.
  - destruct (map _ l); simpl;
      eexists _, _; split; try reflexivity; repeat split; reflexivity.
Qed.

Lemma skip_ws_serialize gap level v w rest :
  all_ws w ->
  skip_ws (w ++ serialize gap level v ++ rest) = serialize gap level v ++ rest.
Proof.
  intros Hw. rewrite skip_ws_app by assumption.
  destruct (serialize_head gap level v) as (c & t & -> & Hc & _).
  simpl. now rewrite Hc.
Qed.

Lemma delimited_break gap level c rest :
  digit c = None -> fractional [c] = false ->
  delimited (break gap level ++ c :: rest).
Proof.
  intros Hd Hf. unfold break.
  destruct gap; [split; assumption | split; reflexivity].
Qed.

Lemma skip_ws_break gap level c rest :
  is_ws c = false -> skip_ws (break gap level ++ c :: rest) = c :: rest.
Proof.
  intros Hc. rewrite skip_ws_app by apply all_ws_break.
  now apply skip_ws_stop.
Qed.

Lemma parse_elements_S f s :
  parse_elements (S f) s =
  match parse_value f s with
  | Some (v, r) =>
      if starts_with "," (skip_ws r) then
        match parse_elements f (tl (skip_ws r)) with
        | Some (vs, r') => Some (v :: vs, r')
        | None => None
        end
      else if starts_with "]" (skip_ws r) then Some ([v], tl (skip_ws r))
      else None
  | None => None
  end.
Proof. reflexivity. Qed.

Lemma parse_members_S f s :
  parse_members (S f) s =
  if starts_with DQUOTE (skip_ws s) then
    match parse_string (tl (skip_ws s)) with
    | Some (k, r1) =>
        if starts_with ":" (skip_ws r1) then
          match parse_value f (tl (skip_ws r1)) with
          | Some (v, r3) =>
              if starts_with "," (skip_ws r3) then
                match parse_members f (tl (skip_ws r3)) with
                | Some (ms, r5) => Some ((k, v) :: ms, r5)
                | None => None
                end
              else if starts_with "}" (skip_ws r3)
              then Some ([(k, v)], tl (skip_ws r3))
              else None
          | None => None
          end
        else None
    | None => None
    end
  else None.
Proof. reflexivity. Qed.

Lemma parse_elements_join gap level l :
  l <> [] -> Forall (roundtrips gap) l ->
  forall fuel w rest,
    (elements_need l <= fuel)%nat -> all_ws w ->
    parse_elements fuel
      (w ++ join ("," :: break gap (S level)) (map (serialize gap (S level)) l)
         ++ break gap level ++ "]" :: rest)
    = Some (l, rest).
Proof.
  intros Hne Hall. induction Hall as [|x l Hx Hl IH]; [congruence|].
  intros fuel w rest Hfuel Hw. unfold elements_need in Hfuel. simpl in Hfuel.
  destruct fuel as [|f]; [lia|]. rewrite parse_elements_S.
  destruct l as [|y l'].
  - simpl map. simpl join.
    rewrite (Hx (S level) f w (break gap level ++ "]" :: rest));
      [|lia|assumption|now apply delimited_break].
    rewrite skip_ws_break by reflexivity. reflexivity.
  - change (join ("," :: break gap (S level))
              (map (serialize gap (S level)) (x :: y :: l')))
      with (serialize gap (S level) x ++ ("," :: break gap (S level))
              ++ join ("," :: break gap (S level))
                   (map (serialize gap (S level)) (y :: l'))).
    rewrite <- !app_assoc.
    rewrite (Hx (S level) f w); [|lia|assumption|split; reflexivity].
    rewrite <- app_comm_cons. rewrite skip_ws_stop by reflexivity.
    cbn [starts_with tl]. change (Ascii.eqb "," ",") with true. cbv iota.
    rewrite IH; [reflexivity|congruence| |apply all_ws_break].
    unfold elements_need. simpl in *. lia.
Qed.

Lemma colon_spec gap rest :
  exists w, colon gap ++ rest = ":" :: w ++ rest /\ all_ws w.
Proof.
  destruct gap; simpl.
  - exists []. split; [reflexivity|constructor].
  - exists [" "]. split; [reflexivity|]. repeat constructor.
Qed.

Lemma parse_members_join gap level l :
  l <> [] -> Forall (fun kv => roundtrips gap (snd kv)) l ->
  forall fuel w rest,
    (members_need l <= fuel)%nat -> all_ws w ->
    parse_members fuel
      (w ++ join ("," :: break gap (S level)) (map (member gap level) l)
         ++ break gap level ++ "}" :: rest)
    = Some (l, rest).
Proof.
  intros Hne Hall. induction Hall as [|[k x] l Hx Hl IH]; [congruence|].
  intros fuel w rest Hfuel Hw. unfold members_need in Hfuel. simpl in Hfuel.
  destruct fuel as [|f]; [lia|]. rewrite parse_members_S.
  simpl in Hx.
  assert (Hkey : forall tail,
             skip_ws (w ++ (quote k ++ colon gap ++ serialize gap (S level) x)
                        ++ tail)
             = DQUOTE :: tl (quote k ++ colon gap
                               ++ serialize gap (S level) x ++ tail)).
  { intros tail. rewrite skip_ws_app by assumption.
    rewrite <- !app_assoc. reflexivity. }
  assert (Hstr : forall tail,
             parse_string (tl (quote k ++ colon gap
                                 ++ serialize gap (S level) x ++ tail))
             = Some (k, colon gap ++ serialize gap (S level) x ++ tail)).
  { intros tail. apply parse_string_quote. reflexivity. }
  destruct l as [|y l'].
  - change (join ("," :: break gap (S level))
              (map (member gap level) [(k, x)]))
      with (quote k ++ colon gap ++ serialize gap (S level) x).
    rewrite Hkey. cbn [starts_with tl].
    change (Ascii.eqb DQUOTE DQUOTE) with true. cbv iota.
    rewrite Hstr.
    destruct (colon_spec gap (serialize gap (S level) x
                                ++ break gap level ++ "}" :: rest))
      as (cw & -> & Hcw).
    rewrite skip_ws_stop by reflexivity. cbn [starts_with tl].
    change (Ascii.eqb ":" ":") with true. cbv iota.
    rewrite (Hx (S level) f cw); [|lia|assumption|now apply delimited_break].
    rewrite skip_ws_break by reflexivity. reflexivity.
  - change (join ("," :: break gap (S level))
              (map (member gap level) ((k, x) :: y :: l')))
      with ((quote k ++ colon gap ++ serialize gap (S level) x)
              ++ ("," :: break gap (S level))
              ++ join ("," :: break gap (S level))
                   (map (member gap level) (y :: l'))).
    rewrite <- (app_assoc _ _ (break gap level ++ "}" :: rest)).
    rewrite Hkey. cbn [starts_with tl].
    change (Ascii.eqb DQUOTE DQUOTE) with true. cbv iota.
    rewrite Hstr.
    match goal with
    | |- context [colon gap ++ ?t] =>
        destruct (colon_spec gap t) as (cw & -> & Hcw)
    end.
    rewrite skip_ws_stop by reflexivity. cbn [starts_with tl].
    change (Ascii.eqb ":" ":") with true. cbv iota.
    rewrite <- !app_assoc.
    rewrite (Hx (S level) f cw); [|lia|assumption|split; reflexivity].
    rewrite <- app_comm_cons. rewrite skip_ws_stop by reflexivity.
    cbn [starts_with tl]. change (Ascii.eqb "," ",") with true. cbv iota.
    rewrite IH; [reflexivity|congruence| |apply all_ws_break].
    unfold members_need. simpl in *. lia.
Qed.

(** ** Objects with distinct keys are rebuilt as they were *)

Lemma set_prop_fresh k v acc :
  existsb (String.eqb k) (map fst acc) = false ->
  set_prop k v acc = acc ++ [(k, v)].
Proof.
  induction acc as [|[k' v'] acc IH]; simpl; [reflexivity|].
  intros H. apply orb_false_elim in H as [Hk Hacc].
  rewrite Hk. now rewrite IH.
Qed.

Lemma existsb_app_false k (l1 l2 : list string) :
  existsb (String.eqb k) (l1 ++ l2) = false <->
  existsb (String.eqb k) l1 = false /\ existsb (String.eqb k) l2 = false.
Proof. rewrite existsb_app. apply orb_false_iff. Qed.

Lemma fold_set_prop l acc :
  distinct (map fst l) = true ->
  (forall k, In k (map fst l) -> existsb (String.eqb k) (map fst acc) = false) ->
  fold_left (fun acc kv => set_prop (fst kv) (snd kv) acc) l acc = acc ++ l.
Proof.
  revert acc. induction l as [|[k v] l IH]; intros acc Hd Hfresh; simpl.
  - now rewrite app_nil_r.
  - simpl in Hd. apply andb_prop in Hd as [Hk Hd].
    apply negb_true_iff in Hk.
    rewrite set_prop_fresh by (apply Hfresh; now left).
    rewrite IH; [now rewrite <- app_assoc|assumption|].
    intros k' Hk'. rewrite map_app. apply existsb_app_false. split.
    + apply Hfresh. now right.
    + simpl. rewrite orb_false_r.
      destruct (String.eqb k' k) eqn:E; [|reflexivity].
      apply String.eqb_eq in E. subst k'.
      rewrite <- not_true_iff_false in Hk. exfalso. apply Hk.
      apply existsb_exists. exists k. split; [assumption|apply String.eqb_refl].
Qed.

Lemma object_of_distinct l :
  distinct (map fst l) = true -> object_of l = JObj l.
Proof.
  intros H. unfold object_of. now rewrite fold_set_prop.
Qed.

Lemma parse_value_S f s :
  parse_value (S f) s =
  match skip_ws s with
  | [] => None
  | c :: r =>
      if Ascii.eqb c "n" then literal "ull" JNull r
      else if Ascii.eqb c "t" then literal "rue" (JBool true) r
      else if Ascii.eqb c "f" then literal "alse" (JBool false) r
      else if Ascii.eqb c DQUOTE then
        match parse_string r with
        | Some (str, r') => Some (JStr str, r')
        | None => None
        end
      else if Ascii.eqb c "[" then
        if starts_with "]" (skip_ws r) then Some (JArr [], tl (skip_ws r))
        else match parse_elements f r with
             | Some (vs, r') => Some (JArr vs, r')
             | None => None
             end
      else if Ascii.eqb c "{" then
        if starts_with "}" (skip_ws r) then Some (JObj [], tl (skip_ws r))
        else match parse_members f r with
             | Some (ms, r') => Some (object_of ms, r')
             | None => None
             end
      else parse_number (c :: r)
  end.
Proof. reflexivity. Qed.

Lemma starts_with_serialize gap level x tail w c :
  all_ws w -> c = "]" \/ c = "}" ->
  starts_with c (skip_ws (w ++ serialize gap level x ++ tail)) = false.
Proof.
  intros Hw Hc. rewrite skip_ws_serialize by assumption.
  destruct (serialize_head gap level x) as (h & t & -> & _ & H1 & H2).
  simpl. destruct Hc; subst; assumption.
Qed.

Lemma starts_with_join gap level x l tail w c :
  all_ws w -> c = "]" \/ c = "}" ->
  starts_with c
    (skip_ws (w ++ join ("," :: break gap (S level))
                     (map (serialize gap (S level)) (x :: l)) ++ tail))
  = false.
Proof.
  intros Hw Hc. destruct l as [|y l].
  - now apply starts_with_serialize.
  - change (join ("," :: break gap (S level))
              (map (serialize gap (S level)) (x :: y :: l)))
      with (serialize gap (S level) x ++ ("," :: break gap (S level))
              ++ join ("," :: break gap (S level))
                   (map (serialize gap (S level)) (y :: l))).
    rewrite <- app_assoc. now apply starts_with_serialize.
Qed.

Lemma starts_with_members gap level kv l tail w :
  all_ws w ->
  starts_with "}"
    (skip_ws (w ++ join ("," :: break gap (S level))
                     (map (member gap level) (kv :: l)) ++ tail))
  = false.
Proof.
  intros Hw. rewrite skip_ws_app by assumption.
  destruct kv as [k x]. destruct l; reflexivity.
Qed.

Theorem parse_value_serialize gap v :
  representable v = true -> roundtrips gap v.
Proof.
  induction v as [|b|n|s|l IH|l IH] using json_ind; intros Hrep;
    intros level fuel w rest Hfuel Hw Hrest;
    (destruct fuel as [|f]; [simpl in Hfuel; lia|]);
    rewrite parse_value_S, skip_ws_serialize by assumption.
  - reflexivity.
  - destruct b; reflexivity.
  - simpl serialize. destruct n as [|p|p].
    + change (number 0 ++ rest) with ("0" :: rest).
      cbn [Ascii.eqb Bool.eqb]. cbv iota.
      now apply (parse_number_number 0).
    + rewrite <- (parse_number_number (Z.pos p) rest Hrest).
      simpl number.
      destruct (digits_head p)
        as (c & t & Hct & _ & _ & Hn & Ht & Hf & Hq & Hb & Hc & _).
      rewrite Hct. cbn [app]. rewrite Hn, Ht, Hf, Hq, Hb, Hc. reflexivity.
    + change (number (Z.neg p) ++ rest)
        with ("-" :: digits (Pos.to_uint p) ++ rest).
      cbn [Ascii.eqb Bool.eqb]. cbv iota.
      now apply (parse_number_number (Z.neg p)).
  - simpl serialize. unfold quote. rewrite <- app_comm_cons.
    change (Ascii.eqb DQUOTE "n") with false.
    change (Ascii.eqb DQUOTE "t") with false.
    change (Ascii.eqb DQUOTE "f") with false.
    change (Ascii.eqb DQUOTE DQUOTE) with true. cbv iota.
    rewrite (parse_string_quote s rest); reflexivity.
  - simpl in Hrep. simpl in Hfuel.
    assert (Hl : Forall (roundtrips gap) l).
    { rewrite forallb_forall in Hrep. rewrite Forall_forall in IH |- *.
      intros x Hx. apply IH; [assumption|]. apply Hrep.
      now apply list_elem_of_In. }
    destruct l as [|x l]; [reflexivity|].
    change (serialize gap level (JArr (x :: l)))
      with ("[" :: break gap (S level)
              ++ join ("," :: break gap (S level))
                   (map (serialize gap (S level)) (x :: l))
              ++ break gap level ++ ["]"]).
    rewrite <- app_comm_cons. cbn [Ascii.eqb Bool.eqb]. cbv iota.
    rewrite <- !app_assoc. cbn [app].
    rewrite starts_with_join by (auto using all_ws_break).
    rewrite parse_elements_join;
      [reflexivity|congruence|assumption|unfold elements_need|
        apply all_ws_break].
    simpl in *. lia.
  - simpl in Hrep. simpl in Hfuel. apply andb_prop in Hrep as [Hkeys Hrep].
    assert (Hl : Forall (fun kv => roundtrips gap (snd kv)) l).
    { rewrite forallb_forall in Hrep. rewrite Forall_forall in IH |- *.
      intros [k x] Hx. apply IH; [assumption|].
      apply (Hrep (k, x)). now apply list_elem_of_In. }
    destruct l as [|kv l]; [reflexivity|].
    change (serialize gap level (JObj (kv :: l)))
      with ("{" :: break gap (S level)
              ++ join ("," :: break gap (S level))
                   (map (member gap level) (kv :: l))
              ++ break gap level ++ ["}"]).
    rewrite <- app_comm_cons. cbn [Ascii.eqb Bool.eqb]. cbv iota.
    rewrite <- !app_assoc. cbn [app].
    rewrite starts_with_members by apply all_ws_break.
    rewrite parse_members_join;
      [|congruence|assumption|unfold members_need|apply all_ws_break].
    + now rewrite object_of_distinct.
    + simpl in *. lia.
Qed.

(** ** The fuel that [parse] grants is enough *)

Lemma join_length sep (items : list text) (weights : list nat) :
  Forall2 (fun it n => (n <= length it)%nat) items weights ->
  (1 <= length sep)%nat ->
  (list_sum (map S weights) <= length (join sep items) + 1)%nat.
Proof.
  intros Hall Hsep. induction Hall as [|it n items weights Hn Hall IH].
  - simpl. lia.
  - destruct Hall as [|it' n' items' weights' Hn' Hall'].
    + simpl. lia.
    + change (join sep (it :: it' :: items'))
        with (it ++ sep ++ join sep (it' :: items')).
      rewrite !length_app. simpl in *. lia.
Qed.

Lemma wrap_length gap o c level items weights :
  Forall2 (fun it n => (n <= length it)%nat) items weights ->
  (S (list_sum (map S weights)) <= length (wrap gap o c level items))%nat.
Proof.
  intros Hall. pose proof (join_length ("," :: break gap (S level)) _ _ Hall).
  unfold wrap. destruct items as [|it items].
  - inversion Hall. simpl. lia.
  - simpl length. rewrite !length_app. simpl length in *. lia.
Qed.

Lemma need_length gap v :
  forall level, (need v <= length (serialize gap level v))%nat.
Proof.
  induction v as [|b|n|s|l IH|l IH] using json_ind; intros level.
  - simpl. lia.
  - destruct b; simpl; lia.
  - destruct (serialize_head gap level (JNum n)) as (c & t & -> & _).
    simpl. lia.
  - destruct (serialize_head gap level (JStr s)) as (c & t & -> & _).
    simpl. lia.
  - simpl need. simpl serialize.
    rewrite <- (map_map need S).
    apply wrap_length. apply Forall2_fmap. apply Forall_Forall2_diag.
    eapply Forall_impl; [exact IH|]. intros x Hx. apply Hx.
  - simpl need. simpl serialize.
    replace (map (fun kv : string * json => let '(_, x) := kv in S (need x)) l)
      with (map S (map (fun kv => need (snd kv)) l))
      by (rewrite map_map; apply map_ext; now intros []).
    apply wrap_length. apply Forall2_fmap. apply Forall_Forall2_diag.
    eapply Forall_impl; [exact IH|]. intros [k x] Hx. simpl in *.
    rewrite !length_app. specialize (Hx (S level)). lia.
Qed.

Theorem parse_stringify v space :
  representable v = true -> parse (stringify v space) = Some v.
Proof.
  intros Hrep. unfold parse, stringify, chars.
  rewrite list_ascii_of_string_of_list_ascii.
  set (gap := Nat.min 10 space).
  pose proof (parse_value_serialize gap v Hrep 0%nat
                (S (length (serialize gap 0 v))) [] []) as H.
  rewrite app_nil_r in H. simpl app in H.
  rewrite H; [reflexivity| |constructor|split; reflexivity].
  pose proof (need_length gap v 0%nat). lia.
Qed.
End JSONFacts.

(* ===================================================================== *)
(** * Facts about paths *)
(* ===================================================================== *)

Module PathFacts.

Import JSON Path.
Local Open Scope list_scope.

Lemma length_string_of_list_ascii (l : text) :
  String.length (string_of_list_ascii l) = length l.
Proof. induction l; simpl; congruence. Qed.

Lemma length_list_ascii_of_string (s : string) :
  length (list_ascii_of_string s) = String.length s.
Proof. induction s; simpl; congruence. Qed.

Lemma dropwhile_length f (s : text) : (length (dropwhile f s) <= length s)%nat.
Proof.
  induction s as [|c s IH]; simpl; [lia|]. destruct (f c); simpl; lia.
Qed.

Lemma dropwhile_twice_length f (s : text) :
  dropwhile (fun c => negb (f c)) (dropwhile f s) = [] \/
  (length (dropwhile (fun c => negb (f c)) (dropwhile f s)) < length s)%nat.
Proof.
  induction s as [|c s IH]; simpl; [now left|].
  destruct (f c) eqn:E.
  - destruct IH; [now left|right; lia].
  - simpl. rewrite E. simpl.
    right. pose proof (dropwhile_length (fun c => negb (f c)) s). lia.
Qed.

(** [dirname] either reaches the root or the working directory, or gives a
    strictly shorter path. *)
Lemma dirname_text_shorter (p : text) :
  dirname_text p = ["/"%char] \/ dirname_text p = ["."%char] \/
  (length (dirname_text p) < length p)%nat.
Proof.
  destruct p as [|c0 tail]; [now right; left|].
  unfold dirname_text.
  destruct (dropwhile_twice_length is_slash (rev tail)) as [->|Hlen].
  - destruct (is_slash c0); [now left|now right; left].
  - rewrite length_rev in Hlen.
    destruct (dropwhile _ (dropwhile is_slash (rev tail))) as [|x before];
      [destruct (is_slash c0); [now left|now right; left]|].
    right; right. simpl in Hlen.
    destruct before as [|y before].
    + destruct (is_slash c0); simpl in *; lia.
    + simpl in *. rewrite length_app, length_rev. simpl. lia.
Qed.

End PathFacts.

(* ===================================================================== *)
(** * Facts about the in-memory file system *)
(* ===================================================================== *)

Module MemFsFacts.

Import Path MemFs PathFacts.
Local Open Scope string_scope.

Lemma pathDirname_shorter p :
  is_root (pathDirname p) = true \/
  (String.length (pathDirname p) < String.length p)%nat.
Proof.
  unfold pathDirname.
  destruct (dirname_text_shorter (list_ascii_of_string p)) as [->| [->|H]];
    [now left|now left|right].
  now rewrite length_string_of_list_ascii, <- length_list_ascii_of_string.
Qed.

Lemma is_root_dirname p : is_root p = true -> pathDirname p = p.
Proof.
  unfold is_root. intros H. apply orb_prop in H as [H|H];
    apply String.eqb_eq in H; now subst.
Qed.

Lemma is_root_iter n p :
  is_root p = true -> Nat.iter n pathDirname p = p.
Proof.
  intros H. induction n as [|n IH]; simpl; [reflexivity|].
  rewrite IH. now apply is_root_dirname.
Qed.

(** Every directory above [p] is the root, the working directory, or a
    member of the chain. *)
Lemma chain_complete fuel : forall p n,
  (String.length p < fuel)%nat ->
  is_root (Nat.iter n pathDirname p) = true
  \/ In (Nat.iter n pathDirname p) (chain fuel p).
Proof.
  induction fuel as [|fuel IH]; intros p n Hlen; [lia|].
  simpl chain. destruct (is_root p) eqn:Hroot.
  - left. now rewrite is_root_iter.
  - destruct n as [|n]; [right; now left|].
    rewrite Nat.iter_succ_r.
    destruct (pathDirname_shorter p) as [Hr|Hs].
    + left. now rewrite is_root_iter.
    + destruct (IH (pathDirname p) n) as [H|H]; [lia|now left|right; now right].
Qed.

Lemma ancestors_complete p n :
  is_root (Nat.iter n pathDirname p) = true
  \/ In (Nat.iter n pathDirname p) (ancestors p).
Proof. apply chain_complete. lia. Qed.

(** ** [make_dirs] *)

Lemma make_dirs_spec dirs : forall (m m' : gmap string node),
  make_dirs dirs m = Ok m' ->
  (forall d, In d dirs -> m' !! d = Some Dir)
  /\ (forall q, m !! q = Some Dir -> m' !! q = Some Dir)
  /\ (forall q, ~ In q dirs -> m' !! q = m !! q).
Proof.
  induction dirs as [|d above IH]; intros m m' H; simpl in H.
  - injection H as <-. repeat split; auto. intros d [].
  - destruct (make_dirs above m) as [m1|] eqn:E; [|discriminate].
    destruct (IH m m1 E) as (Hin & Hkeep & Hout).
    destruct (m1 !! d) as [[mode data|]|] eqn:Hd; try discriminate;
      injection H as <-.
    + repeat split.
      * intros q [<-|Hq]; [assumption|now apply Hin].
      * assumption.
      * intros q Hq. apply Hout. intros Hq'. apply Hq. now right.
    + repeat split.
      * intros q [<-|Hq]; [apply lookup_insert_eq|].
        rewrite lookup_insert. case_decide; [reflexivity|now apply Hin].
      * intros q Hq. rewrite lookup_insert.
        case_decide; [reflexivity|now apply Hkeep].
      * intros q Hq. rewrite lookup_insert_ne.
        -- apply Hout. intros Hq'. apply Hq. now right.
        -- intros <-. apply Hq. now left.
Qed.

Lemma make_dirs_idempotent dirs (m : gmap string node) :
  (forall d, In d dirs -> m !! d = Some Dir) -> make_dirs dirs m = Ok m.
Proof.
  induction dirs as [|d above IH]; intros H; simpl; [reflexivity|].
  rewrite IH by (intros q Hq; apply H; now right).
  now rewrite (H d) by now left.
Qed.

(** ** [mkdirp] *)

Lemma with_nodes_id w : with_nodes (fun _ => nodes w) w = w.
Proof. now destruct w. Qed.

Lemma fs_mkdirp_chain p w w' :
  fs_mkdirp p w = (Ok tt, w') ->
  forall n, lookup_node (Nat.iter n pathDirname p) w' = Some Dir.
Proof.
  unfold fs_mkdirp. destruct (make_dirs _ _) as [m|] eqn:E; [|discriminate].
  intros [= <-] n. unfold lookup_node.
  destruct (is_root _) eqn:Hroot; [reflexivity|]. simpl.
  destruct (make_dirs_spec _ _ _ E) as (Hin & _).
  apply Hin. destruct (ancestors_complete p n); [congruence|assumption].
Qed.

Lemma fs_mkdirp_idempotent p w w' :
  fs_mkdirp p w = (Ok tt, w') -> fs_mkdirp p w' = (Ok tt, w').
Proof.
  unfold fs_mkdirp. destruct (make_dirs _ (nodes w)) as [m|] eqn:E;
    [|discriminate].
  intros [= <-]. simpl.
  destruct (make_dirs_spec _ _ _ E) as (Hin & _).
  now rewrite make_dirs_idempotent.
Qed.

(** ** [writeFile] *)

Lemma fs_writeFile_spec p data w w' :
  fs_writeFile p data w = (Ok tt, w') ->
  exists mode,
    lookup_node p w' = Some (File mode data)
    /\ nodes w' = <[p := File mode data]> (nodes w)
    /\ lookup_node p w <> Some Dir
    /\ (forall q, lookup_node q w = Some Dir -> lookup_node q w' = Some Dir).
Proof.
  unfold fs_writeFile.
  destruct (lookup_node (pathDirname p) w) as [[|]|]; try discriminate.
  assert (Hgen : forall mode,
             lookup_node p w <> Some Dir ->
             lookup_node p (with_nodes (insert p (File mode data)) w)
             = Some (File mode data)
             /\ nodes (with_nodes (insert p (File mode data)) w)
                = <[p := File mode data]> (nodes w)
             /\ lookup_node p w <> Some Dir
             /\ (forall q, lookup_node q w = Some Dir ->
                           lookup_node q
                             (with_nodes (insert p (File mode data)) w)
                           = Some Dir)).
  { intros mode Hp. unfold lookup_node in *. simpl.
    destruct (is_root p) eqn:Hroot; [congruence|].
    repeat split; [apply lookup_insert_eq|assumption|].
    intros q Hq. destruct (is_root q); [reflexivity|].
    rewrite lookup_insert_ne; [assumption|]. intros <-. congruence. }
  destruct (lookup_node p w) as [[mode old|]|] eqn:Hp; try discriminate.
  - destruct (permits mode 2); [|discriminate].
    intros [= <-]. exists mode. apply Hgen. discriminate.
  - intros [= <-]. exists 420. apply Hgen. discriminate.
Qed.

End MemFsFacts.

(* ===================================================================== *)
(** * Properties of the class, for every implementation of the
      collaborators *)
(* ===================================================================== *)

Module ConfigFacts.

Import Spec.
Local Open Scope string_scope.

Section Generic.
Context {W : Type} {collaborators : Collaborators W}.

Lemma await_eq {X : Type} (op : Op X) (s : state W) :
  await op s =
  (fst (perform op (world (outside s))),
   State (this s) (after op (snd (perform op (world (outside s)))) (outside s))).
Proof.
  unfold await, call, after. now destruct (perform op (world (outside s))).
Qed.

(** ** [access] *)

Lemma access_eq perm (s : state W) :
  access perm s =
  let op := SfdxUtil_access (getPath (this s)) perm in
  let r := perform op (world (outside s)) in
  (Ok (match fst r with Ok _ => true | Throw _ => false end),
   State (this s) (after op (snd r) (outside s))).
Proof.
  unfold access, try_catch, bind, gets, ret. rewrite await_eq. simpl.
  now destruct (fst (perform _ _)).
Qed.

Lemma exists_eq (s : state W) :
  exists_ s =
  let op := SfdxUtil_access (getPath (this s)) R_OK in
  let r := perform op (world (outside s)) in
  (Ok (match fst r with Ok _ => true | Throw _ => false end),
   State (this s) (after op (snd r) (outside s))).
Proof. apply access_eq. Qed.

(** ** [read] *)

Lemma read_eq flag (s : state W) :
  read flag s =
  let op := SfdxUtil_readJSON (getPath (this s)) in
  let r := perform op (world (outside s)) in
  let e := after op (snd r) (outside s) in
  match fst r with
  | Ok v => (Ok (Some v), State (with_contents (Some v) (this s)) e)
  | Throw err =>
      if has_code err "ENOENT" && negb flag
      then (Ok (Some empty_object),
            State (with_contents (Some empty_object) (this s)) e)
      else (Throw err, State (this s) e)
  end.
Proof.
  unfold read, try_catch, bind, gets, ret, setContents, modify, throw.
  rewrite await_eq. simpl.
  destruct (fst (perform _ _)) as [v|err]; [reflexivity|].
  destruct (has_code err "ENOENT"), flag; reflexivity.
Qed.

(** ** [write] *)

Lemma write_eq newContents (s : state W) :
  write newContents s =
  let c := written newContents (this s) in
  let mk := SfdxUtil_mkdirp (Path.pathDirname (getPath c)) in
  let r1 := perform mk (world (outside s)) in
  let e1 := after mk (snd r1) (outside s) in
  match fst r1 with
  | Throw err => (Throw err, State c e1)
  | Ok _ =>
      let wr := SfdxUtil_writeFile (getPath c)
                  (JSON.stringify (getContents c) 4) in
      let r2 := perform wr (snd r1) in
      let e2 := after wr (snd r2) e1 in
      match fst r2 with
      | Throw err => (Throw err, State c e2)
      | Ok _ => (Ok (getContents c), State c e2)
      end
  end.
Proof.
  unfold write, written, bind, gets, ret, setContents, modify.
  destruct (_isNil newContents); simpl; rewrite await_eq; simpl;
    (destruct (fst (perform _ _)); [|reflexivity]);
    rewrite await_eq; simpl; now destruct (fst (perform _ _)).
Qed.

(** ** [stat] and [unlink] *)

Lemma stat_eq (s : state W) :
  stat s = await (SfdxUtil_stat (getPath (this s))) s.
Proof. reflexivity. Qed.

Lemma unlink_eq (s : state W) :
  unlink s =
  let p := getPath (this s) in
  let ac := SfdxUtil_access p R_OK in
  let r := perform ac (world (outside s)) in
  let e1 := after ac (snd r) (outside s) in
  match fst r with
  | Ok _ => await (SfdxUtil_unlink p) (State (this s) e1)
  | Throw _ =>
      (Throw (SfdxError ("Target file doesn't exist. path: " ++ p)
                "TargetFileNotFound"),
       State (this s) e1)
  end.
Proof.
  unfold unlink, bind. rewrite exists_eq. simpl.
  now destruct (fst (perform _ _)).
Qed.


(** ** Frame conditions *)

Lemma invoke_identity i (s : state W) :
  same_identity (this s) (this (invoke i s)).
Proof.
  destruct i; simpl; unfold readJSON;
    rewrite ?access_eq, ?read_eq, ?write_eq, ?exists_eq, ?stat_eq, ?unlink_eq,
      ?await_eq; simpl.
  - now split.
  - destruct (fst (perform _ _)) as [|err]; [now split|].
    destruct (has_code err "ENOENT" && negb throwOnNotFound); now split.
  - destruct (fst (perform _ _)) as [|err]; [now split|].
    destruct (has_code err "ENOENT" && negb throwOnNotFound); now split.
  - unfold written.
    destruct (fst (perform _ _)); [destruct (fst (perform _ _))|];
      destruct (_isNil newContents); now split.
  - now split.
  - now split.
  - destruct (fst (perform _ _)); [rewrite await_eq|]; now split.
  - now split.
Qed.

Lemma lifetime_identity calls (s : state W) :
  same_identity (this s) (this (lifetime calls s)).
Proof.
  revert s. induction calls as [|i calls IH]; intros s; simpl.
  - now split.
  - destruct (IH (invoke i s)) as [Hp Ho].
    destruct (invoke_identity i s) as [Hp' Ho'].
    split; congruence.
Qed.

(** ** [create] *)

Lemma effective_eq v : _isBoolean v && to_boolean v = effective v.
Proof. now destruct v as [[]|]. Qed.

Lemma create_no_root options fn (e : env W) :
  nonempty (filename options) = Some fn ->
  nonempty (rootFolder options) = None ->
  _isBoolean (isGlobal options) = false ->
  create options e =
  (Throw (SfdxError "isGlobal must be a boolean" "InvalidTypeForIsGlobal"), e).
Proof.
  intros Hfn Hroot Hbool. unfold create, bind, resolveRootFolder.
  now rewrite Hfn, Hroot, Hbool.
Qed.

Lemma create_options opts (e e' : env W) (c : Config) :
  create opts e = (Ok c, e') -> options c = opts /\ contents c = undefined.
Proof.
  unfold create, bind, ret, throw.
  destruct (nonempty (filename opts)); [|discriminate].
  match goal with
  | |- context [match ?m e with _ => _ end] =>
      destruct (m e) as [[r|err] e1]; [|discriminate]
  end.
  intros [= <- <-]. now split.
Qed.

End Generic.
End ConfigFacts.

(* ===================================================================== *)
(** * The behaviour on sample worlds *)
(* ===================================================================== *)

Module Examples.

Import MemFs Spec.
Local Open Scope string_scope.

(** The text [write] produces: 4 spaces for each level of nesting. *)
Example stringify_indentation :
  JSON.stringify (JArr [JNum 1; JArr [JNull; JBool true]; JArr []; JNum (-20)]) 4
  = "[
    1,
    [
        null,
        true
    ],
    [],
    -20
]".
Proof. reflexivity. Qed.

Example parse_whitespace :
  JSON.parse " [ 1 ,[null,true ],[ ], -20 ]  "
  = Some (JArr [JNum 1; JArr [JNull; JBool true]; JArr []; JNum (-20)]).
Proof. reflexivity. Qed.

Example parse_trailing_comma : JSON.parse "[1,]" = None.
Proof. reflexivity. Qed.

(** [path.join] and [path.dirname]. *)
Example pathJoin_normalises :
  Path.pathJoin ["/home/user/"; "a/../b//c"; "./x.json"]
  = "/home/user/b/c/x.json".
Proof. reflexivity. Qed.

Example pathDirname_samples :
  map Path.pathDirname ["/a/b/c.json"; "/a"; "a"; "/"; "a/b/"; "//a"]
  = ["/a/b"; "/"; "."; "/"; "a"; "//"].
Proof. reflexivity. Qed.

(** The layout of the path: [<root>[/.sfdx][/<filePath>]/<filename>]. *)
Example create_global :
  create global_options (Env empty_disk [])
  = (Ok global_config, Env empty_disk [Called osHomedir]).
Proof. reflexivity. Qed.

Example create_local_state :
  fst (create local_state_options (Env empty_disk []))
  = Ok {| options := local_state_options;
          path := "/work/project/.sfdx/sub/config.json";
          contents := undefined |}.
Proof. reflexivity. Qed.

Example create_local :
  fst (create local_options (Env empty_disk []))
  = Ok {| options := local_options;
          path := "/work/project/config.json";
          contents := undefined |}.
Proof. reflexivity. Qed.

Example create_rooted :
  create rooted_options (Env empty_disk [])
  = (Ok rooted_config, Env empty_disk []).
Proof. reflexivity. Qed.

(** Outside a project the root of a local file cannot be resolved, and the
    error of the locator is the error of [create]. *)
Example create_outside_project :
  fst (create local_options (Env unreadable_disk []))
  = Throw (SfdxError "This directory does not contain a valid project."
             "InvalidProjectWorkspace").
Proof. reflexivity. Qed.

Example resolveRootFolder_non_boolean :
  fst (resolveRootFolder (Some (JStr "true")) (Env empty_disk []))
  = Throw (SfdxError "isGlobal must be a boolean" "InvalidTypeForIsGlobal").
Proof. reflexivity. Qed.

(** [access] does not tell a missing file from an unreadable one. *)
Example access_flattens :
  fst (access R_OK fresh) = Ok false
  /\ fst (access R_OK unreadable) = Ok false
  /\ fst (access 2 unreadable) = Ok true.
Proof. repeat split; reflexivity. Qed.

(** [unlink] before any write, and after one. *)
Example unlink_before_write :
  fst (unlink fresh)
  = Throw (SfdxError
             "Target file doesn't exist. path: /home/user/.sfdx/config.json"
             "TargetFileNotFound").
Proof. reflexivity. Qed.

Example unlink_after_write :
  let written := snd (write undefined fresh) in
  fst (unlink written) = Ok tt
  /\ fst (exists_ (snd (unlink written))) = Ok false.
Proof. split; vm_compute; reflexivity. Qed.

(** [stat] reports what the file system holds. *)
Example stat_after_write :
  fst (stat (snd (write undefined fresh))) = Ok (Stats 33188 2 false).
Proof. vm_compute. reflexivity. Qed.

End Examples.

(* ===================================================================== *)
(** * The properties the specification claims *)
(* ===================================================================== *)

Import MemFs Spec.
Local Open Scope string_scope.

(** ** Construction *)

(** C5: for every ConfigOptions whose filename is missing (undefined, or
    the empty string, which the test on it treats alike), Config.create
    fails with the InvalidParameter error, and does so before any
    collaborator is called: the world and the trace of calls are those it
    started from. *)
Theorem create_requires_filename
  {W : Type} {collaborators : Collaborators W}
  (options : ConfigOptions) (e : env W) :
  nonempty (filename options) = None ->
  create options e =
  (Throw (SfdxError "The ConfigOptions filename parameter is invalid."
            "InvalidParameter"), e).
Proof. intros H. unfold create. now rewrite H. Qed.

Lemma create_requires_filename_witness :
  let options := {| rootFolder := None; filename := None;
                    isGlobal := Some (JBool true); isState := undefined;
                    filePath := None |} in
  fst (create options (Env empty_disk [])) =
    Throw (SfdxError "The ConfigOptions filename parameter is invalid."
             "InvalidParameter")
  /\ trace (snd (create options (Env empty_disk []))) = [].
Proof.
  intros options.
  rewrite (create_requires_filename options (Env empty_disk []) eq_refl).
  split; reflexivity.
Defined.

(** C2: for every ConfigOptions with filename present, the path of the
    instance that Config.create returns is join(root, filePath or the empty
    string, filename), where root is the caller-supplied rootFolder if given
    and otherwise the resolved root (the home directory when isGlobal is
    true, the project root otherwise), with STATE_FOLDER appended exactly
    when the effective isGlobal or isState is true; and Config.create does
    return that instance whenever rootFolder is given or isGlobal is a
    boolean and the root resolves. *)
Theorem create_path
  {W : Type} {collaborators : Collaborators W}
  (options : ConfigOptions) (fn : string) (e : env W) :
  nonempty (filename options) = Some fn ->
  (forall c e',
      create options e = (Ok c, e') ->
      exists resolved,
        resolves options e resolved e'
        /\ getPath c = spec_path options resolved fn)
  /\ (forall resolved e',
         resolves options e resolved e' ->
         is_Some (nonempty (rootFolder options))
         \/ _isBoolean (isGlobal options) = true ->
         create options e =
         (Ok {| options := options;
                path := spec_path options resolved fn;
                contents := undefined |}, e')).
Proof.
  intros Hfn. unfold create, resolves, spec_path, spec_root, bind, ret.
  rewrite Hfn, !ConfigFacts.effective_eq.
  destruct (nonempty (rootFolder options)) as [root|] eqn:Hroot.
  - split.
    + intros c e' [= <- <-]. exists root. now split.
    + now intros resolved e' -> _.
  - unfold resolveRootFolder, throw.
    destruct (isGlobal options) as [[|[]| | | |]|]; simpl; split;
      solve
        [ intros c e' [=]
        | intros resolved e' _ [[x [=]]|[=]]
        | intros resolved e' -> _; reflexivity
        | intros c e' H;
          destruct (call _ e) as [[resolved|err] e1]; [|discriminate];
          injection H as <- <-; exists resolved; now split ].
Qed.

Lemma create_path_witness :
  create global_options (Env empty_disk []) =
  (Ok global_config, Env empty_disk [Called osHomedir])
  /\ getPath global_config = "/home/user/.sfdx/config.json".
Proof.
  split; [|reflexivity].
  apply (proj2 (create_path global_options "config.json"
                  (Env empty_disk []) eq_refl)
           "/home/user" (Env empty_disk [Called osHomedir]));
    [reflexivity|now right].
Defined.

(** C3 (the code departs from the claim): with no rootFolder and an
    isGlobal that is not a boolean, Config.create hands the raw option to
    resolveRootFolder, not the defaulted one, and fails with the
    InvalidTypeForIsGlobal error: on the options that only name the file,
    for every implementation of the collaborators and in every world,
    before any call. *)
Theorem create_filename_only_throws
  {W : Type} {collaborators : Collaborators W} (e : env W) :
  create filename_only e =
  (Throw (SfdxError "isGlobal must be a boolean" "InvalidTypeForIsGlobal"), e).
Proof. now apply (ConfigFacts.create_no_root filename_only "config.json"). Qed.

(** The claim of C3, as it is stated, fails on those options. *)
Lemma create_filename_only_not_tolerated :
  ~ tolerates_non_boolean filename_only (Env empty_disk []).
Proof.
  intros H. apply (H (SfdxError "isGlobal must be a boolean"
                        "InvalidTypeForIsGlobal")); reflexivity.
Qed.

(** With a rootFolder, a non-boolean isGlobal or isState does count as
    false: the instance is created and its path carries no state folder
    on their account. *)
Lemma create_rooted_non_boolean
  {W : Type} {collaborators : Collaborators W}
  (options : ConfigOptions) (root fn : string) (e : env W) :
  nonempty (filename options) = Some fn ->
  nonempty (rootFolder options) = Some root ->
  _isBoolean (isGlobal options) = false ->
  _isBoolean (isState options) = false ->
  create options e =
  (Ok {| options := options;
         path := Path.pathJoin
                   [root;
                    match nonempty (filePath options) with
                    | Some filePath => filePath
                    | None => EmptyString
                    end;
                    fn];
         contents := undefined |}, e).
Proof.
  intros Hfn Hroot Hg Hs. unfold create, bind, ret.
  now rewrite Hfn, Hroot, Hg, Hs.
Qed.

(** C10: getIsGlobal() returns options.isGlobal as it was given, so for an
    instance created without an isGlobal option it returns undefined, which
    is not a boolean. *)
Theorem getIsGlobal_unmodified
  {W : Type} {collaborators : Collaborators W}
  (options : ConfigOptions) (e e' : env W) (c : Config) :
  create options e = (Ok c, e') ->
  getIsGlobal c = isGlobal options
  /\ (isGlobal options = undefined ->
      getIsGlobal c = undefined /\ _isBoolean (getIsGlobal c) = false).
Proof.
  intros H. apply ConfigFacts.create_options in H as [Hopt _].
  unfold getIsGlobal. rewrite Hopt. split; [reflexivity|].
  now intros ->.
Qed.

Lemma getIsGlobal_unmodified_witness :
  getIsGlobal rooted_config = undefined.
Proof.
  apply (getIsGlobal_unmodified rooted_options
           (Env empty_disk []) (Env empty_disk []) rooted_config);
    reflexivity.
Defined.

(** ** Operations on the resolved path *)

(** C8: access(perm) never throws.  For every permission value and every
    outcome of the collaborator's check it returns a boolean: true when the
    check succeeds, false when it fails, whatever the error is (not found,
    permission denied or any other); the instance is left as it was. *)
Theorem access_never_throws
  {W : Type} {collaborators : Collaborators W} (perm : Z) (s : state W) :
  let check := perform (SfdxUtil_access (getPath (this s)) perm)
                 (world (outside s)) in
  exists b,
    fst (access perm s) = Ok b
    /\ (b = true <-> exists w, check = (Ok tt, w))
    /\ (b = false <-> exists err w, check = (Throw err, w))
    /\ this (snd (access perm s)) = this s.
Proof.
  intros check. rewrite ConfigFacts.access_eq. simpl. fold check.
  destruct check as [[[]|err] w]; simpl.
  - exists true. repeat split; eauto; try discriminate.
    intros (err & w' & [=]).
  - exists false. repeat split; eauto; try discriminate.
    intros (w' & [=]).
Qed.

(** C4: when the collaborator's read fails, read(throwOnNotFound) behaves
    as follows.  If the error is the not-found error (code ENOENT) and
    throwOnNotFound is false, read sets contents to the empty object and
    returns it; if it is the not-found error and throwOnNotFound is true
    (the default of readJSON), that error is thrown; every other error is
    thrown whatever the flag, and the contents are left as they were. *)
Theorem read_error_handling
  {W : Type} {collaborators : Collaborators W}
  (s : state W) (err : error) (w : W) :
  let op := SfdxUtil_readJSON (getPath (this s)) in
  perform op (world (outside s)) = (Throw err, w) ->
  (has_code err "ENOENT" = true ->
     read false s =
       (Ok (Some empty_object),
        State (with_contents (Some empty_object) (this s))
          (after op w (outside s)))
     /\ read_default s = read false s
     /\ read true s = (Throw err, State (this s) (after op w (outside s)))
     /\ readJSON_default s = read true s)
  /\ (has_code err "ENOENT" = false ->
      forall throwOnNotFound,
        read throwOnNotFound s =
          (Throw err, State (this s) (after op w (outside s)))
        /\ readJSON throwOnNotFound s = read throwOnNotFound s).
Proof.
  intros op H. split.
  - intros Hcode. unfold read_default, readJSON_default, readJSON.
    rewrite !ConfigFacts.read_eq. simpl. fold op.
    rewrite H. simpl. rewrite Hcode. simpl. now repeat split.
  - intros Hcode flag. unfold readJSON.
    rewrite ConfigFacts.read_eq. simpl. fold op.
    rewrite H. simpl. rewrite Hcode. simpl. now split.
Qed.

Lemma read_error_handling_witness :
  fst (read false fresh) = Ok (Some empty_object)
  /\ contents (this (snd (read false fresh))) = Some empty_object
  /\ fst (read true fresh) =
       Throw (SystemError "ENOENT" "/home/user/.sfdx/config.json")
  /\ fst (read false unreadable) =
       Throw (SystemError "EACCES" "/tmp/root/config.json").
Proof.
  destruct (read_error_handling fresh
              (SystemError "ENOENT" "/home/user/.sfdx/config.json")
              empty_disk eq_refl) as [Hmissing _].
  destruct (Hmissing eq_refl) as (H1 & _ & H2 & _).
  destruct (read_error_handling unreadable
              (SystemError "EACCES" "/tmp/root/config.json")
              unreadable_disk eq_refl) as [_ Hother].
  destruct (Hother eq_refl false) as [H3 _].
  rewrite H1, H2, H3. repeat split; reflexivity.
Defined.

(** The other half of read: what the file holds becomes the contents. *)
Lemma read_success
  {W : Type} {collaborators : Collaborators W}
  (s : state W) (v : json) (w : W) (throwOnNotFound : bool) :
  let op := SfdxUtil_readJSON (getPath (this s)) in
  perform op (world (outside s)) = (Ok v, w) ->
  read throwOnNotFound s =
  (Ok (Some v), State (with_contents (Some v) (this s)) (after op w (outside s))).
Proof.
  intros op H. rewrite ConfigFacts.read_eq. simpl. fold op. now rewrite H.
Qed.

(** C9: the path is the one Config.create computed.  Whatever methods are
    then called on the instance (access, read, readJSON, write, exists,
    stat, unlink, setContents), in whatever order, with whatever arguments
    and outcomes, getPath() returns that same string and the options are
    those given to create. *)
Theorem path_never_recomputed
  {W : Type} {collaborators : Collaborators W}
  (opts : ConfigOptions) (e e' : env W) (c : Config)
  (calls : list invocation) :
  create opts e = (Ok c, e') ->
  getPath (this (lifetime calls (State c e'))) = getPath c
  /\ options (this (lifetime calls (State c e'))) = opts.
Proof.
  intros H. apply ConfigFacts.create_options in H as [Hopt _].
  destruct (ConfigFacts.lifetime_identity calls (State c e')) as [Hp Ho].
  simpl in *. unfold getPath. split; congruence.
Qed.

Lemma path_never_recomputed_witness :
  let calls := [call_write (Some (JObj [("a", JNum 1)])); call_read false;
                call_setContents undefined; call_unlink; call_exists;
                call_stat; call_readJSON true; call_access 2] in
  getPath (this (lifetime calls (State global_config
                                   (Env empty_disk [Called osHomedir]))))
  = "/home/user/.sfdx/config.json".
Proof.
  intros calls.
  apply (path_never_recomputed global_options (Env empty_disk [])
           (Env empty_disk [Called osHomedir]) global_config calls).
  reflexivity.
Defined.

(** ** Deletion *)

(** C6 (counterexample): on a disk where the file is present but not
    readable, unlink() fails with TargetFileNotFound although its target
    is not absent. *)
Lemma unlink_unreadable_not_absent : ~ unlink_absent_iff unreadable.
Proof.
  unfold unlink_absent_iff. intros [H _].
  assert (Habsent : lookup_node (getPath (this unreadable))
                      (world (outside unreadable)) = None).
  { apply H. eexists. split; reflexivity. }
  vm_compute in Habsent. discriminate.
Qed.

(** C6 (amended): unlink() tests exists() once.  When exists() is true it
    makes a single call of the collaborator's unlink on the path and its
    outcome is the outcome of that call; when exists() is false it makes no
    such call and fails with the TargetFileNotFound error whose message
    names the path.  On the file system, TargetFileNotFound is raised iff
    exists() is false, that is iff the read-permission check on the path
    fails: the target is absent, or it is a file that cannot be read. *)
Theorem unlink_spec :
  (forall (W : Type) (collaborators : Collaborators W) (s : state W),
      let p := getPath (this s) in
      let check := SfdxUtil_access p R_OK in
      (fst (exists_ s) = Ok true ->
         unlink s = await (SfdxUtil_unlink p) (snd (exists_ s))
         /\ trace (outside (snd (unlink s))) =
            (trace (outside s)
               ++ [Called check; Called (SfdxUtil_unlink p)])%list)
      /\ (fst (exists_ s) = Ok false ->
            unlink s =
              (Throw (SfdxError ("Target file doesn't exist. path: " ++ p)
                        "TargetFileNotFound"), snd (exists_ s))
            /\ trace (outside (snd (unlink s))) =
               (trace (outside s) ++ [Called check])%list
            /\ world (outside (snd (unlink s))) =
               snd (perform check (world (outside s)))))
  /\ (forall s : state fs,
         ((exists err, fst (unlink s) = Throw err
                       /\ name err = "TargetFileNotFound")
          <-> fst (exists_ s) = Ok false)
         /\ (fst (exists_ s) = Ok false
             <-> lookup_node (getPath (this s)) (world (outside s)) = None
                 \/ exists mode data,
                     lookup_node (getPath (this s)) (world (outside s))
                     = Some (File mode data)
                     /\ permits mode R_OK = false)).
Proof.
  split.
  - intros W collaborators s p check.
    rewrite ConfigFacts.unlink_eq, ConfigFacts.exists_eq. simpl.
    fold p. fold check.
    destruct (fst (perform check (world (outside s)))); split;
      try discriminate; intros _.
    + split; [reflexivity|]. rewrite ConfigFacts.await_eq. simpl.
      now rewrite <- app_assoc.
    + now repeat split.
  - intros s. rewrite ConfigFacts.unlink_eq, ConfigFacts.exists_eq.
    cbv zeta.
    change (perform (SfdxUtil_access (getPath (this s)) R_OK)
              (world (outside s)))
      with (fs_access (getPath (this s)) R_OK (world (outside s)),
            world (outside s)).
    cbn [fst snd]. unfold fs_access.
    change (Z.ltb R_OK 0 || Z.ltb 7 R_OK) with false. cbv iota.
    destruct (lookup_node (getPath (this s)) (world (outside s)))
      as [[mode data|]|] eqn:Hnode.
    + destruct (permits mode R_OK) eqn:Hperm.
      * rewrite ConfigFacts.await_eq. unfold after. cbn [this outside world fst snd].
        change (perform (SfdxUtil_unlink (getPath (this s)))
                  (world (outside s)))
          with (fs_unlink (getPath (this s)) (world (outside s))).
        unfold fs_unlink. rewrite Hnode. cbn [fst snd]. split; split.
        -- intros (err & [=] & _).
        -- discriminate.
        -- discriminate.
        -- intros [[=]|(m & d & [= <- <-] & H)]. congruence.
      * cbn [fst snd]. split; split; try reflexivity.
        -- intros _. eexists. split; reflexivity.
        -- intros _. right. now exists mode, data.
    + rewrite ConfigFacts.await_eq. unfold after. cbn [this outside world fst snd].
      change (perform (SfdxUtil_unlink (getPath (this s)))
                (world (outside s)))
        with (fs_unlink (getPath (this s)) (world (outside s))).
      unfold fs_unlink. rewrite Hnode. cbn [fst snd]. split; split.
      * intros (err & [= <-] & [=]).
      * discriminate.
      * discriminate.
      * intros [[=]|(m & d & [=] & _)].
    + cbn [fst snd]. split; split; try reflexivity.
      * intros _. eexists. split; reflexivity.
      * intros _. now left.
Qed.

Lemma unlink_spec_witness :
  fst (unlink unreadable) =
    Throw (SfdxError "Target file doesn't exist. path: /tmp/root/config.json"
             "TargetFileNotFound")
  /\ trace (outside (snd (unlink unreadable))) =
     [Called (SfdxUtil_access "/tmp/root/config.json" R_OK)].
Proof.
  destruct unlink_spec as [Hgeneric _].
  destruct (Hgeneric fs memfs unreadable) as [_ Hfalse].
  destruct (Hfalse eq_refl) as (H1 & H2 & _).
  split; [now rewrite H1|exact H2].
Defined.

(** ** Writing, and reading back *)

(** What a successful write leaves on the file system. *)
Lemma write_success_memfs (newContents : any) (s s' : state fs) (v : json) :
  write newContents s = (Ok v, s') ->
  let c := written newContents (this s) in
  let p := getPath (this s) in
  this s' = c
  /\ v = getContents c
  /\ (exists w1,
         fs_mkdirp (Path.pathDirname p) (world (outside s)) = (Ok tt, w1)
         /\ fs_writeFile p (JSON.stringify v 4) w1
            = (Ok tt, world (outside s')))
  /\ trace (outside s') =
     (trace (outside s)
        ++ [Called (SfdxUtil_mkdirp (Path.pathDirname p));
            Called (SfdxUtil_writeFile p (JSON.stringify v 4))])%list.
Proof.
  rewrite ConfigFacts.write_eq. cbv zeta.
  assert (Hp : getPath (written newContents (this s)) = getPath (this s)).
  { unfold written. now destruct (_isNil newContents). }
  rewrite !Hp.
  change (perform (SfdxUtil_mkdirp (Path.pathDirname (getPath (this s))))
            (world (outside s)))
    with (fs_mkdirp (Path.pathDirname (getPath (this s))) (world (outside s))).
  destruct (fs_mkdirp _ _) as [[[]|err] w1] eqn:Hmk; cbn [fst snd];
    [|discriminate].
  match goal with
  | |- context [perform (SfdxUtil_writeFile ?p ?d) w1] =>
      change (perform (SfdxUtil_writeFile p d) w1) with (fs_writeFile p d w1)
  end.
  destruct (fs_writeFile _ _ w1) as [[[]|err] w2] eqn:Hwr; cbn [fst snd];
    [|discriminate].
  intros [= <- <-]. unfold after. cbn [this outside world trace].
  repeat split.
  - exists w1. now split.
  - now rewrite <- app_assoc.
Qed.

(** C7: write(newContents).  For every implementation of the
    collaborators: when newContents is not nil it replaces the in-memory
    contents, and it does so before anything is written; write then asks
    for the directory of the path to be created, and only then for the
    file to be written with the JSON text of the current contents at 4
    spaces of indentation; when it returns, it returns those contents.  On
    the file system: after a successful write every directory above the
    path exists, the file holds exactly that text whatever it held before,
    and creating the directories once more changes nothing. *)
Theorem write_spec :
  (forall (W : Type) (collaborators : Collaborators W)
          (newContents : any) (s : state W),
      let c := written newContents (this s) in
      let mk := SfdxUtil_mkdirp (Path.pathDirname (getPath (this s))) in
      let wr := SfdxUtil_writeFile (getPath (this s))
                  (JSON.stringify (getContents c) 4) in
      this (snd (write newContents s)) = c
      /\ (exists later,
             trace (outside (snd (write newContents s))) =
               (trace (outside s) ++ Called mk :: later)%list
             /\ (later = [] \/ later = [Called wr]))
      /\ (forall v,
             fst (write newContents s) = Ok v ->
             v = getContents c
             /\ trace (outside (snd (write newContents s))) =
                (trace (outside s) ++ [Called mk; Called wr])%list))
  /\ (forall (newContents : any) (s s' : state fs) (v : json),
         write newContents s = (Ok v, s') ->
         let p := getPath (this s) in
         (forall n,
             lookup_node (Nat.iter (S n) Path.pathDirname p)
               (world (outside s')) = Some Dir)
         /\ (exists mode,
                lookup_node p (world (outside s'))
                = Some (File mode (JSON.stringify v 4)))
         /\ v = getContents (this s'))
  /\ (forall (d : string) (w w' : fs),
         fs_mkdirp d w = (Ok tt, w') -> fs_mkdirp d w' = (Ok tt, w')).
Proof.
  split; [|split].
  - intros W collaborators newContents s c mk wr.
    rewrite ConfigFacts.write_eq. cbv zeta.
    assert (Hp : getPath (written newContents (this s)) = getPath (this s)).
    { unfold written. now destruct (_isNil newContents). }
    rewrite !Hp. fold c. fold mk. fold wr. unfold after.
    destruct (fst (perform mk (world (outside s)))) as [[]|err];
      [destruct (fst (perform wr _)) as [[]|err]|];
      cbn [fst snd this outside trace].
    + split; [reflexivity|]. split.
      * exists [Called wr]. split; [now rewrite <- app_assoc|now right].
      * intros v [= <-]. split; [reflexivity|now rewrite <- app_assoc].
    + split; [reflexivity|]. split.
      * exists [Called wr]. split; [now rewrite <- app_assoc|now right].
      * intros v [=].
    + split; [reflexivity|]. split.
      * exists []. split; [reflexivity|now left].
      * intros v [=].
  - intros newContents s s' v H p.
    destruct (write_success_memfs _ _ _ _ H) as (Hthis & Hv & Hfs & _).
    destruct Hfs as (w1 & Hmk & Hwr). fold p in Hmk, Hwr.
    destruct (MemFsFacts.fs_writeFile_spec _ _ _ _ Hwr)
      as (mode & Hfile & _ & _ & Hdirs).
    split; [|split].
    + intros n. apply Hdirs. rewrite Nat.iter_succ_r.
      now apply (MemFsFacts.fs_mkdirp_chain _ _ _ Hmk).
    + now exists mode.
    + now rewrite Hthis.
  - apply MemFsFacts.fs_mkdirp_idempotent.
Qed.

Lemma write_spec_witness :
  let X := JObj [("a", JNum 1)] in
  fst (write (Some X) fresh) = Ok X
  /\ lookup_node "/home/user/.sfdx" (world (outside (snd (write (Some X) fresh))))
     = Some Dir
  /\ lookup_node "/home" (world (outside (snd (write (Some X) fresh))))
     = Some Dir
  /\ exists mode,
      lookup_node "/home/user/.sfdx/config.json"
        (world (outside (snd (write (Some X) fresh))))
      = Some (File mode (JSON.stringify X 4)).
Proof.
  intros X.
  destruct write_spec as (_ & Hfs & _).
  assert (Hwrite : write (Some X) fresh
                   = (Ok X, snd (write (Some X) fresh)))
    by (vm_compute; reflexivity).
  destruct (Hfs (Some X) fresh (snd (write (Some X) fresh)) X Hwrite)
    as (Hdirs & Hfile & _).
  split; [now rewrite Hwrite|]. split; [exact (Hdirs 0%nat)|].
  split; [exact (Hdirs 2%nat)|exact Hfile].
Defined.


(** The same happens for the other falsy values: write(0) stores 0 in
    memory but writes, and returns, the empty object. *)
Lemma write_zero_then_read : ~ roundtrip_law (JNum 0) fresh.
Proof.
  intros H.
  assert (Hwrite : write (Some (JNum 0)) fresh
                   = (Ok empty_object, snd (write (Some (JNum 0)) fresh)))
    by (vm_compute; reflexivity).
  specialize (H _ _ Hwrite). vm_compute in H. discriminate.
Qed.



(** On the file system of this development the layer does read back what
    was written: a readable file that holds the text of a representable
    value is read as that value. *)
Lemma memfs_reads_back (X : json) (p : string) (w : fs) (mode : Z) :
  JSON.representable X = true ->
  lookup_node p w = Some (File mode (JSON.stringify X 4)) ->
  permits mode R_OK = true ->
  perform (SfdxUtil_readJSON p) w = (Ok X, w).
Proof.
  intros Hrep Hfile Hperm.
  change (perform (SfdxUtil_readJSON p) w) with (fs_readJSON p w, w).
  unfold fs_readJSON, fs_readFile. rewrite Hfile.
  change (permits mode 4) with (permits mode R_OK). rewrite Hperm.
  now rewrite JSONFacts.parse_stringify.
Qed.

(* ===================================================================== *)
(** * Facts about joining plain paths *)
(* ===================================================================== *)

Module JoinFacts.

Import JSON Path Footprint.
Local Open Scope list_scope.

Lemma segments_nonempty (s : text) : segments s <> [].
Proof.
  induction s as [|c s IH]; simpl; [discriminate|].
  destruct (is_slash c); [discriminate|].
  destruct (segments s); discriminate.
Qed.

(** Cutting at the slashes distributes over joining with a slash. *)
Lemma segments_join (a b : text) :
  segments (a ++ "/"%char :: b) = segments a ++ segments b.
Proof.
  induction a as [|c a IH]; simpl; [reflexivity|].
  destruct (is_slash c); [now rewrite IH|].
  rewrite IH. pose proof (segments_nonempty a) as Ha.
  destruct (segments a); [congruence|reflexivity].
Qed.

Lemma segments_plain (seg : text) :
  forallb (fun c => negb (is_slash c)) seg = true -> segments seg = [seg].
Proof.
  induction seg as [|c seg IH]; simpl; [reflexivity|].
  intros H. apply andb_prop in H as [Hc Hseg].
  apply negb_true_iff in Hc. rewrite Hc. now rewrite IH.
Qed.

Lemma plain_text_noslash seg :
  plain_text seg = true -> forallb (fun c => negb (is_slash c)) seg = true.
Proof.
  destruct seg; [discriminate|]. unfold plain_text.
  intros H. apply andb_prop in H as [H _]. now apply andb_prop in H as [H _].
Qed.

Lemma segments_unsegments (segs : list text) :
  segs <> [] -> forallb plain_text segs = true ->
  segments (unsegments segs) = segs.
Proof.
  induction segs as [|seg segs IH]; [congruence|].
  intros _ H. simpl in H. apply andb_prop in H as [Hseg Hsegs].
  destruct segs as [|seg' segs'].
  - simpl. now apply segments_plain, plain_text_noslash.
  - change (unsegments (seg :: seg' :: segs'))
      with (seg ++ "/"%char :: unsegments (seg' :: segs')).
    rewrite segments_join, IH by (congruence || assumption).
    now rewrite segments_plain by now apply plain_text_noslash.
Qed.

(** Plain segments are kept as they are. *)
Lemma normalize_plain allow (segs : list text) : forall stack,
  forallb plain_text segs = true ->
  forall rest,
    normalize_segments allow stack (segs ++ rest)
    = normalize_segments allow (rev segs ++ stack) rest.
Proof.
  induction segs as [|seg segs IH]; intros stack H rest; [reflexivity|].
  simpl in H. apply andb_prop in H as [Hseg Hsegs].
  simpl app. simpl normalize_segments.
  destruct seg as [|c seg]; [discriminate|].
  unfold plain_text in Hseg.
  apply andb_prop in Hseg as [Hseg Hdd]. apply andb_prop in Hseg as [_ Hd].
  apply negb_true_iff in Hd, Hdd. rewrite Hd, Hdd. cbn [orb].
  rewrite IH by assumption. simpl rev. now rewrite <- app_assoc.
Qed.

Lemma normalize_plain_all allow (segs : list text) stack :
  forallb plain_text segs = true ->
  normalize_segments allow stack segs = rev stack ++ segs.
Proof.
  intros H. rewrite <- (app_nil_r segs) at 1.
  rewrite normalize_plain by assumption. simpl.
  now rewrite rev_app_distr, rev_involutive.
Qed.

(** Empty segments are dropped. *)
Lemma normalize_empty allow stack rest :
  normalize_segments allow stack ([] :: rest)
  = normalize_segments allow stack rest.
Proof. reflexivity. Qed.

Lemma plain_text_not_dotdot seg : plain_text seg = true -> is_dotdot seg = false.
Proof.
  destruct seg as [|c seg]; [discriminate|]. unfold plain_text.
  intros H. apply andb_prop in H as [_ H]. now apply negb_true_iff in H.
Qed.

(** A [..] after a plain segment removes it. *)
Lemma normalize_dotdot allow seg stack rest :
  plain_text seg = true ->
  normalize_segments allow (seg :: stack) (["."; "."]%char :: rest)
  = normalize_segments allow stack rest.
Proof.
  intros H. apply plain_text_not_dotdot in H.
  change (normalize_segments allow (seg :: stack) (["."; "."]%char :: rest))
    with (if is_dotdot seg
          then normalize_segments allow
                 (if allow then ["."; "."]%char :: seg :: stack
                  else seg :: stack) rest
          else normalize_segments allow stack rest).
  now rewrite H.
Qed.

Lemma normalize_unsegments allow (R : list text) stack rest :
  forallb plain_text R = true ->
  normalize_segments allow stack (segments (unsegments R) ++ rest)
  = normalize_segments allow (rev R ++ stack) rest.
Proof.
  intros H. destruct R as [|seg R]; [reflexivity|].
  rewrite segments_unsegments by (congruence || assumption).
  now apply normalize_plain.
Qed.

Lemma unsegments_snoc (F : list text) (x : text) :
  F <> [] -> unsegments (F ++ [x]) = unsegments F ++ "/"%char :: x.
Proof.
  induction F as [|seg F IH]; [congruence|]. intros _.
  destruct F as [|seg' F']; [reflexivity|].
  change (unsegments ((seg :: seg' :: F') ++ [x]))
    with (seg ++ "/"%char :: unsegments ((seg' :: F') ++ [x])).
  rewrite IH by congruence.
  change (unsegments (seg :: seg' :: F'))
    with (seg ++ "/"%char :: unsegments (seg' :: F')).
  now rewrite <- app_assoc.
Qed.

Lemma last_app_nonempty (a b : text) d :
  b <> [] -> List.last (a ++ b) d = List.last b d.
Proof.
  intros Hb. induction a as [|c a IH]; [reflexivity|].
  simpl app. change (List.last (c :: a ++ b) d)
    with (match a ++ b with [] => c | _ => List.last (a ++ b) d end).
  destruct (a ++ b) eqn:E; [|assumption].
  apply app_eq_nil in E as [_ ->]. congruence.
Qed.

Lemma last_forallb (P : ascii -> bool) (b : text) d :
  b <> [] -> forallb P b = true -> P (List.last b d) = true.
Proof.
  induction b as [|c b IH]; [congruence|]. intros _ H.
  simpl in H. apply andb_prop in H as [Hc Hb].
  destruct b as [|c' b']; [assumption|]. apply IH; [congruence|assumption].
Qed.

Lemma plain_text_last seg a d :
  plain_text seg = true -> is_slash (List.last (a ++ seg) d) = false.
Proof.
  intros H. assert (Hne : seg <> []) by (destruct seg; [discriminate|congruence]).
  rewrite last_app_nonempty by assumption.
  apply plain_text_noslash in H.
  apply negb_true_iff. now apply (last_forallb (fun c => negb (is_slash c))).
Qed.

(** An absolute path that does not end with a slash is its kept segments,
    each after a slash. *)
Lemma normalize_text_absolute (q : text) (body : list text) :
  is_slash (List.last ("/"%char :: q) "."%char) = false ->
  normalize_segments false [] (segments ("/"%char :: q)) = body ->
  body <> [] -> unsegments body <> [] ->
  normalize_text ("/"%char :: q) = "/"%char :: unsegments body.
Proof.
  intros Hlast Hbody Hne Hne'. unfold normalize_text.
  change (is_slash "/"%char) with true. cbn [negb].
  rewrite Hbody, Hlast. destruct (unsegments body); [congruence|].
  now rewrite app_nil_r.
Qed.

Lemma unsegments_nonempty (segs : list text) :
  segs <> [] -> forallb plain_text segs = true -> unsegments segs <> [].
Proof.
  destruct segs as [|[|c seg] segs]; [congruence|discriminate|].
  intros _ _. destruct segs; discriminate.
Qed.

(** The layout of a file below an absolute root: [root/s1/.../sn]. *)
Lemma normalize_text_layout (R S : list text) :
  forallb plain_text R = true -> forallb plain_text S = true -> S <> [] ->
  normalize_text (("/"%char :: unsegments R) ++ "/"%char :: unsegments S)
  = "/"%char :: unsegments (R ++ S).
Proof.
  intros HR HS Hne.
  assert (HRS : forallb plain_text (R ++ S) = true)
    by (rewrite forallb_app; now rewrite HR, HS).
  rewrite <- app_comm_cons. apply normalize_text_absolute.
  - rewrite app_comm_cons.
    destruct (exists_last Hne) as (S' & x & ->).
    rewrite forallb_app in HS. apply andb_prop in HS as [_ Hx].
    simpl in Hx. rewrite andb_true_r in Hx.
    destruct S' as [|s S'].
    + simpl app. change (unsegments [x]) with x.
      rewrite app_comm_cons. rewrite (app_assoc _ ["/"%char] x).
      now apply plain_text_last.
    + rewrite unsegments_snoc by discriminate.
      rewrite app_comm_cons.
      rewrite (app_assoc _ ("/"%char :: unsegments (s :: S')) ("/"%char :: x)).
      rewrite (app_assoc _ ["/"%char] x). now apply plain_text_last.
  - change (segments ("/"%char :: unsegments R ++ "/"%char :: unsegments S))
      with ([] :: segments (unsegments R ++ "/"%char :: unsegments S)).
    rewrite normalize_empty, segments_join.
    rewrite normalize_unsegments by assumption.
    rewrite <- (app_nil_r (segments (unsegments S))).
    rewrite normalize_unsegments by assumption.
    simpl. now rewrite app_nil_r, rev_app_distr, !rev_involutive.
  - destruct R; [assumption|discriminate].
  - apply unsegments_nonempty; [|assumption]. destruct R; [assumption|discriminate].
Qed.

(** ** The same, on strings *)

Local Abbreviation L := list_ascii_of_string.

Lemma forallb_plain (segs : list string) :
  forallb plain_text (map L segs) = forallb plain segs.
Proof. induction segs as [|seg segs IH]; simpl; [reflexivity|]. now rewrite IH. Qed.

Lemma text_of_absolute (r : list string) :
  L (absolute r) = "/"%char :: unsegments (map L r).
Proof.
  unfold absolute, relative. simpl.
  now rewrite list_ascii_of_string_of_list_ascii.
Qed.

Lemma text_of_relative (f : list string) :
  L (relative f) = unsegments (map L f).
Proof. unfold relative. now rewrite list_ascii_of_string_of_list_ascii. Qed.

Lemma absolute_of_text (segs : list string) :
  string_of_list_ascii ("/"%char :: unsegments (map L segs)) = absolute segs.
Proof. reflexivity. Qed.

Lemma plain_nonempty seg : plain seg = true -> String.eqb seg EmptyString = false.
Proof. now destruct seg. Qed.

Lemma relative_nonempty seg f :
  plain seg = true -> String.eqb (relative (seg :: f)) EmptyString = false.
Proof.
  intros H. unfold relative.
  destruct seg as [|c seg]; [discriminate|]. simpl map.
  destruct (map L f); reflexivity.
Qed.

Lemma parts_keep (a : string) (l : list string) :
  String.eqb a EmptyString = false ->
  filter (fun a => negb (String.eqb a EmptyString)) (a :: l)
  = a :: filter (fun a => negb (String.eqb a EmptyString)) l.
Proof. intros H. apply filter_cons_True. now rewrite H. Qed.

Lemma parts_drop (l : list string) :
  filter (fun a => negb (String.eqb a EmptyString)) (EmptyString :: l)
  = filter (fun a => negb (String.eqb a EmptyString)) l.
Proof. apply filter_cons_False. now intros []. Qed.

Lemma parts_nil :
  filter (fun a => negb (String.eqb a EmptyString)) [] = [].
Proof. reflexivity. Qed.

(** [join(root, segment)] *)
Lemma pathJoin_segment (r : list string) (seg : string) :
  forallb plain r = true -> plain seg = true ->
  pathJoin [absolute r; seg] = absolute (r ++ [seg]).
Proof.
  intros Hr Hseg. unfold pathJoin.
  rewrite parts_keep by reflexivity.
  rewrite parts_keep by now apply plain_nonempty.
  rewrite parts_nil. cbn [map].
  change (unsegments [L (absolute r); L seg])
    with (L (absolute r) ++ "/"%char :: unsegments [L seg]).
  rewrite text_of_absolute, normalize_text_layout;
    [|now rewrite forallb_plain|simpl; now rewrite andb_true_r|discriminate].
  rewrite <- absolute_of_text. now rewrite map_app.
Qed.

(** [join(root, filePath, filename)], the file path being empty or made
    of plain segments. *)
Lemma pathJoin_layout (r f : list string) (fn : string) :
  forallb plain r = true -> forallb plain f = true -> plain fn = true ->
  pathJoin [absolute r; relative f; fn] = absolute (r ++ f ++ [fn]).
Proof.
  intros Hr Hf Hfn. unfold pathJoin.
  rewrite parts_keep by reflexivity.
  assert (HS : forallb plain_text (map L (f ++ [fn])) = true).
  { rewrite forallb_plain, forallb_app, Hf. simpl. now rewrite Hfn. }
  destruct f as [|seg f].
  - change (relative []) with EmptyString. rewrite parts_drop.
    rewrite parts_keep by now apply plain_nonempty.
    rewrite parts_nil. cbn [map].
    change (unsegments [L (absolute r); L fn])
      with (L (absolute r) ++ "/"%char :: unsegments (map L ([] ++ [fn]))).
    rewrite text_of_absolute, normalize_text_layout;
      [|now rewrite forallb_plain|assumption|discriminate].
    rewrite <- absolute_of_text. now rewrite !map_app.
  - simpl in Hf. apply andb_prop in Hf as [Hseg Hf].
    rewrite parts_keep by now apply relative_nonempty.
    rewrite parts_keep by now apply plain_nonempty.
    rewrite parts_nil. cbn [map].
    change (unsegments [L (absolute r); L (relative (seg :: f)); L fn])
      with (L (absolute r) ++ "/"%char
              :: (L (relative (seg :: f)) ++ "/"%char :: L fn)).
    rewrite text_of_relative, <- unsegments_snoc by discriminate.
    change [L fn] with (map L [fn]). rewrite <- map_app.
    rewrite text_of_absolute, normalize_text_layout;
      [|now rewrite forallb_plain|assumption|discriminate].
    rewrite <- absolute_of_text. now rewrite !map_app.
Qed.

(** [join(root/segment, .., filename)]: the [..] removes the segment. *)
Lemma pathJoin_dotdot (r : list string) (seg fn : string) :
  forallb plain r = true -> plain seg = true -> plain fn = true ->
  pathJoin [absolute (r ++ [seg]); ".."%string; fn] = absolute (r ++ [fn]).
Proof.
  intros Hr Hseg Hfn. unfold pathJoin.
  rewrite parts_keep by reflexivity.
  rewrite parts_keep by reflexivity.
  rewrite parts_keep by now apply plain_nonempty.
  rewrite parts_nil. cbn [map].
  change (unsegments [L (absolute (r ++ [seg])); L ".."%string; L fn])
    with (L (absolute (r ++ [seg])) ++ "/"%char
            :: (["."; "."]%char ++ "/"%char :: L fn)).
  rewrite text_of_absolute. rewrite <- app_comm_cons.
  assert (HR : forallb plain_text (map L (r ++ [seg])) = true).
  { rewrite forallb_plain, forallb_app, Hr. simpl. now rewrite Hseg. }
  rewrite <- absolute_of_text. f_equal.
  set (q := unsegments (map L (r ++ [seg]))
              ++ "/"%char :: ["."; "."]%char ++ "/"%char :: L fn).
  apply (normalize_text_absolute q).
  - unfold q. rewrite app_comm_cons.
    rewrite (app_assoc _ ("/"%char :: ["."; "."]%char) ("/"%char :: L fn)).
    rewrite (app_assoc _ ["/"%char] (L fn)). now apply plain_text_last.
  - change (segments ("/"%char :: q)) with ([] :: segments q).
    unfold q. rewrite normalize_empty, segments_join.
    rewrite normalize_unsegments by assumption.
    rewrite segments_join. rewrite map_app, rev_app_distr. simpl rev.
    simpl app at 1.
    change (segments ["."; "."]%char) with [["."; "."]%char].
    change ([["."; "."]%char] ++ segments (L fn))
      with (["."; "."]%char :: segments (L fn)).
    rewrite normalize_dotdot by assumption.
    rewrite segments_plain by (apply plain_text_noslash; assumption).
    rewrite normalize_plain_all by (simpl; now rewrite andb_true_r).
    now rewrite app_nil_r, rev_involutive, map_app.
  - rewrite map_app. destruct (map L r); discriminate.
  - apply unsegments_nonempty.
    + rewrite map_app. destruct (map L r); discriminate.
    + rewrite forallb_plain, forallb_app, Hr. simpl. now rewrite Hfn.
Qed.

End JoinFacts.

(* ===================================================================== *)
(** * Further properties of the class *)
(* ===================================================================== *)

Import Footprint.

(** ** Construction *)

(** X1: the ways Config.create can fail.  It throws InvalidParameter
    (filename missing) or InvalidTypeForIsGlobal (no rootFolder and an
    isGlobal that is not a boolean), both before any call; otherwise the
    error is the one that the single locator it consulted has thrown:
    os.homedir() for a global file, ProjectDir.getPath() for a local one.
    With a rootFolder and a filename it cannot fail. *)
Theorem create_failure_modes
  {W : Type} {collaborators : Collaborators W}
  (opts : ConfigOptions) (e e' : env W) (err : error) :
  create opts e = (Throw err, e') ->
  (nonempty (filename opts) = None /\ err = InvalidParameter /\ e' = e)
  \/ (nonempty (rootFolder opts) = None
      /\ ((_isBoolean (isGlobal opts) = false
           /\ err = InvalidTypeForIsGlobal /\ e' = e)
          \/ (isGlobal opts = Some (JBool true)
              /\ call osHomedir e = (Throw err, e'))
          \/ (isGlobal opts = Some (JBool false)
              /\ call ProjectDir_getPath e = (Throw err, e')))).
Proof.
  unfold create, bind, ret, throw.
  destruct (nonempty (filename opts)) as [fn|];
    [|intros [= <- <-]; left; now repeat split].
  destruct (nonempty (rootFolder opts)) as [root|]; [discriminate|].
  intros H. right. split; [reflexivity|].
  unfold resolveRootFolder, throw in H.
  destruct (isGlobal opts) as [[|[]| | | |]|]; simpl in H;
    try (injection H as <- <-; left; now repeat split).
  - right; left. split; [reflexivity|].
    destruct (call osHomedir e) as [[home|err'] e1]; [discriminate|].
    now injection H as <- <-.
  - right; right. split; [reflexivity|].
    destruct (call ProjectDir_getPath e) as [[root|err'] e1]; [discriminate|].
    now injection H as <- <-.
Qed.

Lemma create_failure_modes_witness :
  call ProjectDir_getPath (Env unreadable_disk []) =
  (Throw (SfdxError "This directory does not contain a valid project."
            "InvalidProjectWorkspace"),
   Env unreadable_disk [Called ProjectDir_getPath]).
Proof.
  assert (Hcreate :
            create local_options (Env unreadable_disk []) =
            (Throw (SfdxError "This directory does not contain a valid project."
                      "InvalidProjectWorkspace"),
             Env unreadable_disk [Called ProjectDir_getPath]))
    by (vm_compute; reflexivity).
  destruct (create_failure_modes local_options (Env unreadable_disk [])
              (Env unreadable_disk [Called ProjectDir_getPath])
              (SfdxError "This directory does not contain a valid project."
                 "InvalidProjectWorkspace") Hcreate)
    as [(H & _)|(_ & [(H & _)|[(H & _)|(_ & H)]])];
    try discriminate H.
  exact H.
Defined.

(** X2: Config.create never reads the file.  Whether it returns or
    throws, it makes at most one call, and that call is a locator of the
    root folder; with a rootFolder it makes none.  The instance it returns
    has no contents yet: getContents() is the empty object. *)
Theorem create_footprint
  {W : Type} {collaborators : Collaborators W}
  (opts : ConfigOptions) (e : env W) :
  (exists calls,
      trace (snd (create opts e)) = (trace e ++ calls)%list
      /\ (length calls <= 1)%nat
      /\ forallb is_locator calls = true)
  /\ (is_Some (nonempty (rootFolder opts)) -> snd (create opts e) = e)
  /\ (forall c, fst (create opts e) = Ok c ->
                contents c = undefined /\ getContents c = empty_object).
Proof.
  assert (Hnone : forall l : list event,
             l = (l ++ [])%list /\ (length (@nil event) <= 1)%nat
             /\ forallb is_locator [] = true)
    by (intros l; rewrite app_nil_r; repeat split; simpl; lia).
  split; [|split].
  - unfold create, bind, ret, throw.
    destruct (nonempty (filename opts)) as [fn|]; [|exists []; apply Hnone].
    destruct (nonempty (rootFolder opts)) as [root|];
      [exists []; apply Hnone|].
    unfold resolveRootFolder, throw, call.
    destruct (isGlobal opts) as [[|[]| | | |]|]; simpl;
      try (exists []; apply Hnone).
    + exists [Called osHomedir].
      destruct (perform osHomedir (world e)) as [[home|err] w];
        simpl; repeat split; lia.
    + exists [Called ProjectDir_getPath].
      destruct (perform ProjectDir_getPath (world e)) as [[root|err] w];
        simpl; repeat split; lia.
  - intros [root Hroot]. unfold create, bind, ret, throw.
    destruct (nonempty (filename opts)); [|reflexivity].
    now rewrite Hroot.
  - intros c H. destruct (create opts e) as [r e'] eqn:E. simpl in H. subst r.
    apply ConfigFacts.create_options in E as [_ Hc].
    split; [assumption|]. unfold getContents. now rewrite Hc.
Qed.

(** X3: the layout of the path.  When the root (the rootFolder given, or
    the resolved home directory or project root) is an absolute path of
    plain segments, and filePath (if given) and filename are made of plain
    segments, the path of the instance is
    root[/.sfdx][/filePath]/filename, segment after segment: the state
    folder is present exactly when isGlobal or isState is the boolean
    true. *)
Theorem create_layout
  {W : Type} {collaborators : Collaborators W}
  (opts : ConfigOptions) (root subdirs : list string) (fn : string)
  (e e' : env W) :
  filename opts = Some fn ->
  nonempty (filePath opts) = nonempty (Some (relative subdirs)) ->
  forallb plain root = true ->
  forallb plain subdirs = true ->
  plain fn = true ->
  match nonempty (rootFolder opts) with
  | Some rootFolder => rootFolder = absolute root /\ e' = e
  | None =>
      _isBoolean (isGlobal opts) = true
      /\ resolves opts e (absolute root) e'
  end ->
  create opts e =
  (Ok {| options := opts;
         path := absolute
                   (root
                      ++ (if effective (isGlobal opts)
                             || effective (isState opts)
                          then [Global.STATE_FOLDER] else [])
                      ++ subdirs ++ [fn]);
         contents := undefined |}, e').
Proof.
  intros Hfn Hfp Hroot Hsub Hplain Hbase.
  assert (Hjoin : forall base : list string,
             forallb plain base = true ->
             Path.pathJoin
               [absolute base;
                match nonempty (filePath opts) with
                | Some filePath => filePath
                | None => EmptyString
                end; fn]
             = absolute (base ++ subdirs ++ [fn])).
  { intros base Hb. rewrite Hfp.
    destruct subdirs as [|d ds].
    - change (nonempty (Some (relative []))) with (@None string).
      now rewrite <- (JoinFacts.pathJoin_layout base [] fn).
    - simpl in Hsub. apply andb_prop in Hsub as [Hd Hds].
      unfold nonempty. rewrite (JoinFacts.relative_nonempty d ds Hd).
      apply JoinFacts.pathJoin_layout; [assumption| |assumption].
      simpl. now rewrite Hd, Hds. }
  assert (Hc : forall base : string,
             base = absolute root ->
             {| options := opts;
                path := Path.pathJoin
                          [if effective (isGlobal opts)
                              || effective (isState opts)
                           then Path.pathJoin [base; Global.STATE_FOLDER]
                           else base;
                           match nonempty (filePath opts) with
                           | Some filePath => filePath
                           | None => EmptyString
                           end; fn];
                contents := undefined |}
             = {| options := opts;
                  path := absolute
                            (root
                               ++ (if effective (isGlobal opts)
                                      || effective (isState opts)
                                   then [Global.STATE_FOLDER] else [])
                               ++ subdirs ++ [fn]);
                  contents := undefined |}).
  { intros base ->. f_equal.
    destruct (effective (isGlobal opts) || effective (isState opts)).
    - rewrite JoinFacts.pathJoin_segment by (assumption || reflexivity).
      rewrite Hjoin; [now rewrite <- app_assoc|].
      rewrite forallb_app, Hroot. reflexivity.
    - now rewrite Hjoin. }
  unfold create, bind, ret.
  assert (Hne : nonempty (filename opts) = Some fn).
  { rewrite Hfn. unfold nonempty.
    now rewrite (JoinFacts.plain_nonempty fn Hplain). }
  rewrite Hne, !ConfigFacts.effective_eq.
  destruct (nonempty (rootFolder opts)) as [rootFolder|] eqn:Hrf.
  - destruct Hbase as [-> ->]. now rewrite Hc.
  - destruct Hbase as [Hbool Hres]. unfold resolves in Hres.
    rewrite Hrf in Hres. unfold resolveRootFolder. rewrite Hbool. cbn [negb].
    destruct (isGlobal opts) as [[|[]| | | |]|]; try discriminate;
      cbn [to_boolean truthy effective] in *; rewrite Hres;
      now rewrite Hc.
Qed.

Lemma create_layout_witness :
  create local_state_options (Env empty_disk []) =
  (Ok {| options := local_state_options;
         path := absolute ["work"; "project"; ".sfdx"; "sub"; "config.json"];
         contents := undefined |},
   Env empty_disk [Called ProjectDir_getPath]).
Proof.
  apply (create_layout local_state_options ["work"; "project"] ["sub"]
           "config.json" (Env empty_disk [])
           (Env empty_disk [Called ProjectDir_getPath]));
    try reflexivity.
  split; reflexivity.
Defined.

(** X4: filePath is not confined to the state folder.  For a global file
    whose filePath is [..], the path is the filename directly in the home
    directory: the [..] cancels the state folder that isGlobal has
    added. *)
Theorem create_leaves_state_folder
  {W : Type} {collaborators : Collaborators W}
  (opts : ConfigOptions) (home : list string) (fn : string)
  (e e' : env W) :
  nonempty (rootFolder opts) = None ->
  isGlobal opts = Some (JBool true) ->
  filename opts = Some fn ->
  filePath opts = Some ".." ->
  forallb plain home = true ->
  plain fn = true ->
  call osHomedir e = (Ok (absolute home), e') ->
  create opts e =
  (Ok {| options := opts;
         path := absolute (home ++ [fn]);
         contents := undefined |}, e').
Proof.
  intros Hroot Hglobal Hfn Hfp Hhome Hplain Hcall.
  unfold create, bind, ret.
  assert (Hne : nonempty (filename opts) = Some fn).
  { rewrite Hfn. unfold nonempty.
    now rewrite (JoinFacts.plain_nonempty fn Hplain). }
  rewrite Hne, Hroot, Hfp, Hglobal. unfold resolveRootFolder.
  cbn [_isBoolean negb to_boolean truthy andb orb nonempty].
  rewrite Hcall.
  rewrite JoinFacts.pathJoin_segment by (assumption || reflexivity).
  change (nonempty (Some "..")) with (Some "..").
  now rewrite JoinFacts.pathJoin_dotdot by (assumption || reflexivity).
Qed.

Lemma create_leaves_state_folder_witness :
  fst (create {| rootFolder := None; filename := Some "config.json";
                 isGlobal := Some (JBool true); isState := undefined;
                 filePath := Some ".." |} (Env empty_disk []))
  = Ok {| options := {| rootFolder := None; filename := Some "config.json";
                        isGlobal := Some (JBool true); isState := undefined;
                        filePath := Some ".." |};
          path := "/home/user/config.json";
          contents := undefined |}.
Proof.
  rewrite (create_leaves_state_folder _ ["home"; "user"] "config.json"
             (Env empty_disk []) (Env empty_disk [Called osHomedir]));
    reflexivity.
Defined.

(** ** Contents in memory *)

(** X5: getContents() never returns a falsy value.  It returns the
    contents when they are truthy, and the empty object when they are
    undefined, null, false, 0 or the empty string. *)
Theorem getContents_truthy (c : Config) :
  truthy (getContents c) = true
  /\ (to_boolean (contents c) = true -> Some (getContents c) = contents c)
  /\ (to_boolean (contents c) = false -> getContents c = empty_object).
Proof.
  unfold getContents, or_else, to_boolean.
  destruct (contents c) as [j|]; [|now repeat split].
  destruct (truthy j) eqn:Hj; repeat split; congruence.
Qed.

(** X6: setContents(value) is pure assignment.  It returns without any
    call and leaves the world as it is; a second setContents overrides the
    first; and getContents() then returns the value when it is truthy, the
    empty object otherwise. *)
Theorem setContents_getContents
  {W : Type} {collaborators : Collaborators W}
  (a b : any) (s : state W) :
  fst (setContents a s) = Ok tt
  /\ outside (snd (setContents a s)) = outside s
  /\ snd (setContents b (snd (setContents a s))) = snd (setContents b s)
  /\ getContents (this (snd (setContents a s))) = or_else a empty_object
  /\ (to_boolean a = true ->
      Some (getContents (this (snd (setContents a s)))) = a).
Proof.
  repeat split. unfold setContents, modify, getContents, or_else. simpl.
  destruct a as [j|]; [|discriminate]. simpl. now intros ->.
Qed.

(** ** What the methods touch *)

Lemma invoke_footprint
  {W : Type} {collaborators : Collaborators W}
  (i : invocation) (s : state W) :
  exists calls,
    trace (outside (invoke i s)) = (trace (outside s) ++ calls)%list
    /\ Forall (within (this s)) calls
    /\ (length calls <= 2)%nat.
Proof.
  assert (Hnone : exists calls : list event,
             trace (outside s) = (trace (outside s) ++ calls)%list
             /\ Forall (within (this s)) calls /\ (length calls <= 2)%nat).
  { exists []. rewrite app_nil_r. repeat split; [constructor|simpl; lia]. }
  assert (Hone : forall (X : Type) (op : Op X) (w : W),
             target (Called op) = Some (getPath (this s)) ->
             exists calls : list event,
               trace (after op w (outside s))
               = (trace (outside s) ++ calls)%list
               /\ Forall (within (this s)) calls /\ (length calls <= 2)%nat).
  { intros X op w Hop. exists [Called op].
    repeat split; [|simpl; lia]. constructor; [now left|constructor]. }
  destruct i; simpl; unfold readJSON;
    rewrite ?ConfigFacts.access_eq, ?ConfigFacts.read_eq,
      ?ConfigFacts.write_eq, ?ConfigFacts.exists_eq, ?ConfigFacts.stat_eq,
      ?ConfigFacts.unlink_eq, ?ConfigFacts.await_eq; cbv zeta.
  - now apply Hone.
  - destruct (fst (perform _ _)) as [v|err]; [now apply Hone|].
    destruct (has_code err "ENOENT" && negb throwOnNotFound); now apply Hone.
  - destruct (fst (perform _ _)) as [v|err]; [now apply Hone|].
    destruct (has_code err "ENOENT" && negb throwOnNotFound); now apply Hone.
  - assert (Hp : getPath (written newContents (this s)) = getPath (this s)).
    { unfold written. now destruct (_isNil newContents). }
    rewrite !Hp.
    set (mk := SfdxUtil_mkdirp (Path.pathDirname (getPath (this s)))).
    set (wr := SfdxUtil_writeFile (getPath (this s)) _).
    assert (Hmk : within (this s) (Called mk)) by now right.
    assert (Hwr : within (this s) (Called wr)) by now left.
    destruct (fst (perform mk _)) as [[]|err].
    + exists [Called mk; Called wr].
      assert (Hboth : Forall (within (this s)) [Called mk; Called wr])
        by (repeat constructor; assumption).
      destruct (fst (perform wr _)); unfold after; simpl;
        rewrite <- app_assoc; repeat split; try assumption; lia.
    + exists [Called mk]. unfold after. simpl.
      repeat split; [|lia]. constructor; [assumption|constructor].
  - now apply Hone.
  - now apply Hone.
  - set (ac := SfdxUtil_access (getPath (this s)) R_OK).
    set (un := SfdxUtil_unlink (getPath (this s))).
    assert (Hac : within (this s) (Called ac)) by now left.
    assert (Hun : within (this s) (Called un)) by now left.
    destruct (fst (perform ac _)).
    + rewrite ConfigFacts.await_eq. exists [Called ac; Called un].
      unfold after. simpl. rewrite <- app_assoc.
      repeat split; [|lia]. repeat constructor; assumption.
    + exists [Called ac]. unfold after. simpl.
      repeat split; [|lia]. constructor; [assumption|constructor].
  - apply Hnone.
Qed.

(** X7: an instance keeps to its own file.  Over any sequence of calls of
    its methods, every call it makes outside itself is about its path or
    about the directory of its path; it never consults the locators again,
    and it makes at most two calls for each method called (no retry). *)
Theorem lifetime_footprint
  {W : Type} {collaborators : Collaborators W}
  (calls : list invocation) (s : state W) :
  exists made,
    trace (outside (lifetime calls s)) = (trace (outside s) ++ made)%list
    /\ Forall (within (this s)) made
    /\ existsb is_locator made = false
    /\ (length made <= 2 * length calls)%nat.
Proof.
  revert s. induction calls as [|i calls IH]; intros s.
  - exists []. simpl. rewrite app_nil_r. repeat split; [constructor|lia].
  - destruct (invoke_footprint i s) as (first & Hfirst & Hin & Hlen).
    destruct (IH (invoke i s)) as (later & Hlater & Hin' & Hloc & Hlen').
    destruct (ConfigFacts.invoke_identity i s) as [Hpath _].
    assert (Hsame : forall ev, within (this (invoke i s)) ev
                               -> within (this s) ev).
    { intros ev. unfold within, getPath. now rewrite Hpath. }
    exists (first ++ later)%list. simpl lifetime. repeat split.
    + now rewrite Hlater, Hfirst, <- app_assoc.
    + apply Forall_app. split; [assumption|].
      eapply Forall_impl; [exact Hin'|]. exact Hsame.
    + rewrite existsb_app, Hloc, orb_false_r.
      clear -Hin. induction Hin as [|ev evs Hev _ IHevs]; [reflexivity|].
      simpl. rewrite IHevs, orb_false_r.
      destruct ev as [X op]. destruct Hev as [Hev|Hev];
        destruct op; try discriminate Hev; reflexivity.
    + rewrite length_app. simpl length. lia.
Qed.

(** X8: access, exists, stat and unlink leave the contents in memory as
    they are, whatever the file system answers; in particular the contents
    survive the deletion of the file. *)
Theorem contents_kept
  {W : Type} {collaborators : Collaborators W}
  (calls : list invocation) (s : state W) :
  forallb leaves_contents calls = true ->
  contents (this (lifetime calls s)) = contents (this s)
  /\ getContents (this (lifetime calls s)) = getContents (this s).
Proof.
  intros H.
  assert (Hc : contents (this (lifetime calls s)) = contents (this s)).
  { revert s. induction calls as [|i calls IH]; intros s; [reflexivity|].
    simpl in H. apply andb_prop in H as [Hi Hcalls].
    simpl lifetime. rewrite IH by assumption.
    destruct i; try discriminate Hi; simpl;
      rewrite ?ConfigFacts.access_eq, ?ConfigFacts.exists_eq,
        ?ConfigFacts.stat_eq, ?ConfigFacts.unlink_eq, ?ConfigFacts.await_eq;
      cbv zeta; try reflexivity.
    destruct (fst (perform _ _)); [rewrite ConfigFacts.await_eq|];
      reflexivity. }
  split; [assumption|]. unfold getContents. now rewrite Hc.
Qed.

Lemma contents_kept_witness :
  let s := snd (write (Some (JObj [("a", JNum 1)])) fresh) in
  getContents (this (lifetime [call_exists; call_stat; call_unlink;
                               call_access 2] s))
  = JObj [("a", JNum 1)].
Proof.
  intros s.
  destruct (contents_kept [call_exists; call_stat; call_unlink; call_access 2]
              s eq_refl) as [_ H].
  rewrite H. reflexivity.
Defined.

(** ** Writing *)

(** X9: how write() fails.  It fails only when the creation of the
    directory fails, in which case the file is not written at all, or when
    the writing of the file fails; it throws the error it received.  In
    both cases the new contents, when given, have already replaced the
    contents in memory. *)
Theorem write_failure
  {W : Type} {collaborators : Collaborators W}
  (newContents : any) (s : state W) (err : error) :
  let c := written newContents (this s) in
  let mk := SfdxUtil_mkdirp (Path.pathDirname (getPath (this s))) in
  let wr := SfdxUtil_writeFile (getPath (this s))
              (JSON.stringify (getContents c) 4) in
  let made := perform mk (world (outside s)) in
  fst (write newContents s) = Throw err ->
  this (snd (write newContents s)) = c
  /\ ((fst made = Throw err
       /\ outside (snd (write newContents s))
          = after mk (snd made) (outside s))
      \/ (fst made = Ok tt
          /\ fst (perform wr (snd made)) = Throw err
          /\ trace (outside (snd (write newContents s)))
             = (trace (outside s) ++ [Called mk; Called wr])%list)).
Proof.
  intros c mk wr made. rewrite ConfigFacts.write_eq. cbv zeta.
  assert (Hp : getPath (written newContents (this s)) = getPath (this s)).
  { unfold written. now destruct (_isNil newContents). }
  rewrite !Hp. fold c. fold mk. fold wr. fold made.
  destruct (fst made) as [[]|err1]; cbn [fst snd this].
  - destruct (fst (perform wr (snd made))) as [[]|err2];
      cbn [fst snd this]; [discriminate|].
    intros [= ->]. split; [reflexivity|]. right.
    unfold after. simpl. now rewrite <- app_assoc.
  - intros [= ->]. split; [reflexivity|]. now left.
Qed.

Lemma write_failure_witness :
  contents (this (snd (write (Some (JObj [("a", JNum 1)])) blocked)))
  = Some (JObj [("a", JNum 1)])
  /\ contents (this (snd (write (Some (JObj [("a", JNum 1)])) readonly)))
     = Some (JObj [("a", JNum 1)]).
Proof.
  assert (H1 : fst (write (Some (JObj [("a", JNum 1)])) blocked)
               = Throw (SystemError "EEXIST" "/tmp/root"))
    by (vm_compute; reflexivity).
  assert (H2 : fst (write (Some (JObj [("a", JNum 1)])) readonly)
               = Throw (SystemError "EACCES" "/tmp/root/config.json"))
    by (vm_compute; reflexivity).
  destruct (write_failure _ _ _ H1) as [-> _].
  destruct (write_failure _ _ _ H2) as [-> _].
  split; reflexivity.
Defined.

(** X10: what write() writes when there is nothing truthy to write.  When
    the contents it is about to write are undefined, null, false, 0 or the
    empty string (no contents yet and no argument, or a falsy argument),
    a successful write() writes the text of the empty object and returns
    the empty object, while the contents in memory stay what they
    were set to. *)
Theorem write_falsy
  {W : Type} {collaborators : Collaborators W}
  (newContents : any) (s : state W) (v : json) :
  let c := written newContents (this s) in
  to_boolean (contents c) = false ->
  fst (write newContents s) = Ok v ->
  v = empty_object
  /\ trace (outside (snd (write newContents s)))
     = (trace (outside s)
          ++ [Called (SfdxUtil_mkdirp (Path.pathDirname (getPath (this s))));
              Called (SfdxUtil_writeFile (getPath (this s)) "{}")])%list
  /\ contents (this (snd (write newContents s))) = contents c.
Proof.
  intros c Hfalsy. rewrite ConfigFacts.write_eq. cbv zeta.
  assert (Hp : getPath (written newContents (this s)) = getPath (this s)).
  { unfold written. now destruct (_isNil newContents). }
  rewrite !Hp. fold c.
  assert (Hg : getContents c = empty_object).
  { unfold getContents, or_else. unfold to_boolean in Hfalsy.
    destruct (contents c); [now rewrite Hfalsy|reflexivity]. }
  rewrite Hg. change (JSON.stringify empty_object 4) with "{}".
  destruct (fst (perform _ _)) as [[]|err1]; cbn [fst snd this];
    [|discriminate].
  destruct (fst (perform _ _)) as [[]|err2]; cbn [fst snd this];
    [|discriminate].
  intros [= <-]. repeat split. unfold after. simpl. now rewrite <- app_assoc.
Qed.

Lemma write_falsy_witness :
  fst (write (Some (JNum 0)) fresh) = Ok empty_object
  /\ contents (this (snd (write (Some (JNum 0)) fresh))) = Some (JNum 0).
Proof.
  assert (H : fst (write (Some (JNum 0)) fresh) = Ok empty_object)
    by (vm_compute; reflexivity).
  destruct (write_falsy (Some (JNum 0)) fresh empty_object eq_refl H)
    as (_ & _ & Hc).
  split; [exact H|]. rewrite Hc. reflexivity.
Defined.

(** ** On the file system: how the operations compose *)

Lemma perform_access (p : string) (perm : Z) (w : fs) :
  perform (SfdxUtil_access p perm) w = (fs_access p perm w, w).
Proof. reflexivity. Qed.

Lemma perform_readJSON (p : string) (w : fs) :
  perform (SfdxUtil_readJSON p) w = (fs_readJSON p w, w).
Proof. reflexivity. Qed.


Lemma perform_unlink (p : string) (w : fs) :
  perform (SfdxUtil_unlink p) w = fs_unlink p w.
Proof. reflexivity. Qed.

(** What exists() means on the file system. *)
Lemma exists_memfs (s : state fs) :
  fst (exists_ s) = Ok true <->
  lookup_node (getPath (this s)) (world (outside s)) = Some Dir
  \/ exists mode data,
      lookup_node (getPath (this s)) (world (outside s))
      = Some (File mode data)
      /\ permits mode R_OK = true.
Proof.
  rewrite ConfigFacts.exists_eq. cbv zeta. rewrite perform_access.
  cbn [fst]. unfold fs_access.
  change (Z.ltb R_OK 0 || Z.ltb 7 R_OK) with false. cbv iota.
  destruct (lookup_node _ _) as [[mode data|]|].
  - destruct (permits mode R_OK) eqn:Hperm; split.
    + intros _. right. now exists mode, data.
    + reflexivity.
    + discriminate.
    + intros [[=]|(m & d & [= <- <-] & H)]. congruence.
  - split; [now left|reflexivity].
  - split; [discriminate|]. intros [[=]|(m & d & [=] & _)].
Qed.

(** After a successful write the file is a regular file holding the text
    of what write returned. *)
Lemma write_leaves_file (newContents : any) (s s1 : state fs) (v : json) :
  write newContents s = (Ok v, s1) ->
  getPath (this s1) = getPath (this s)
  /\ v = getContents (this s1)
  /\ exists mode,
      lookup_node (getPath (this s1)) (world (outside s1))
      = Some (File mode (JSON.stringify v 4)).
Proof.
  intros H. destruct (write_success_memfs _ _ _ _ H)
    as (Hthis & Hv & (w1 & _ & Hwr) & _).
  assert (Hp : getPath (this s1) = getPath (this s)).
  { rewrite Hthis. unfold written. now destruct (_isNil newContents). }
  destruct (MemFsFacts.fs_writeFile_spec _ _ _ _ Hwr) as (mode & Hfile & _).
  rewrite Hp, Hthis. repeat split; [assumption|now exists mode].
Qed.

(** X11: write, then delete.  After a successful write() whose file can be
    read, unlink() succeeds; the file is then gone: exists() is false,
    read() returns the empty object and read(true) throws the not-found
    error; the contents in memory are still those that were written. *)
Theorem write_then_unlink
  (newContents : any) (s s1 : state fs) (v : json) :
  write newContents s = (Ok v, s1) ->
  fst (exists_ s1) = Ok true ->
  let s2 := snd (unlink s1) in
  fst (unlink s1) = Ok tt
  /\ fst (exists_ s2) = Ok false
  /\ fst (read false s2) = Ok (Some empty_object)
  /\ fst (read true s2) = Throw (SystemError "ENOENT" (getPath (this s)))
  /\ getContents (this s2) = v.
Proof.
  intros Hwrite Hexists s2.
  destruct (write_leaves_file _ _ _ _ Hwrite) as (Hp & Hv & mode & Hfile).
  apply exists_memfs in Hexists.
  destruct Hexists as [Hdir|(m & d & Hnode & Hperm)]; [congruence|].
  assert (Hroot : is_root (getPath (this s1)) = false).
  { unfold lookup_node in Hfile. destruct (is_root _); [discriminate|reflexivity]. }
  assert (Hun : unlink s1 =
                (Ok tt,
                 State (this s1)
                   (Env (with_nodes (delete (getPath (this s1)))
                           (world (outside s1)))
                      (trace (outside s1)
                         ++ [Called (SfdxUtil_access (getPath (this s1)) R_OK);
                             Called (SfdxUtil_unlink (getPath (this s1)))])))).
  { rewrite ConfigFacts.unlink_eq. cbv zeta. rewrite perform_access.
    cbn [fst snd]. unfold fs_access.
    change (Z.ltb R_OK 0 || Z.ltb 7 R_OK) with false. cbv iota.
    rewrite Hnode, Hperm. rewrite ConfigFacts.await_eq. unfold after.
    cbn [this outside world trace]. rewrite perform_unlink.
    unfold fs_unlink. rewrite Hnode. cbn [fst snd].
    now rewrite <- app_assoc. }
  assert (Hgone : lookup_node (getPath (this s2)) (world (outside s2)) = None).
  { unfold s2. rewrite Hun. cbn [snd this outside world].
    unfold lookup_node. rewrite Hroot. simpl. apply lookup_delete_eq. }
  assert (Hthis : this s2 = this s1) by (unfold s2; now rewrite Hun).
  split; [now rewrite Hun|]. split; [|split; [|split]].
  - destruct (fst (exists_ s2)) as [[]|err] eqn:E.
    + apply exists_memfs in E.
      destruct E as [E|(m' & d' & E & _)]; congruence.
    + reflexivity.
    + rewrite ConfigFacts.exists_eq in E. cbv zeta in E.
      destruct (fst (perform _ _)); discriminate.
  - rewrite ConfigFacts.read_eq. cbv zeta. rewrite perform_readJSON.
    cbn [fst snd]. unfold fs_readJSON, fs_readFile. now rewrite Hgone.
  - rewrite ConfigFacts.read_eq. cbv zeta. rewrite perform_readJSON.
    cbn [fst snd]. unfold fs_readJSON, fs_readFile. rewrite Hgone.
    cbn [has_code code SystemError negb andb fst].
    now rewrite Hthis, Hp.
  - now rewrite Hthis.
Qed.

Lemma write_then_unlink_witness :
  let s1 := snd (write (Some (JObj [("a", JNum 1)])) fresh) in
  fst (unlink s1) = Ok tt
  /\ fst (exists_ (snd (unlink s1))) = Ok false.
Proof.
  intros s1.
  assert (Hwrite : write (Some (JObj [("a", JNum 1)])) fresh
                   = (Ok (JObj [("a", JNum 1)]), s1))
    by (vm_compute; reflexivity).
  assert (Hexists : fst (exists_ s1) = Ok true) by (vm_compute; reflexivity).
  destruct (write_then_unlink _ _ _ _ Hwrite Hexists) as (H1 & H2 & _).
  split; assumption.
Defined.

(** X12: read, then write back.  For every implementation of the file
    system layer: when read() has returned a truthy value, a write() with
    no argument writes that same value back.  The contents stay that
    value; the text it hands to the layer, once the directory is made, is
    JSON.stringify of that value at 4 spaces, for the same path; and when
    it returns, it returns that value. *)
Theorem read_then_write_back
  {W : Type} {collaborators : Collaborators W}
  (s : state W) (throwOnNotFound : bool) (v : json) :
  let s1 := snd (read throwOnNotFound s) in
  let mk := SfdxUtil_mkdirp (Path.pathDirname (getPath (this s))) in
  let wr := SfdxUtil_writeFile (getPath (this s)) (JSON.stringify v 4) in
  fst (read throwOnNotFound s) = Ok (Some v) ->
  truthy v = true ->
  contents (this (snd (write undefined s1))) = Some v
  /\ (exists later,
         trace (outside (snd (write undefined s1))) =
           (trace (outside s1) ++ Called mk :: later)%list
         /\ (later = [] \/ later = [Called wr]))
  /\ (forall v',
         fst (write undefined s1) = Ok v' ->
         v' = v
         /\ trace (outside (snd (write undefined s1))) =
            (trace (outside s1) ++ [Called mk; Called wr])%list).
Proof.
  intros s1 mk wr Hread Htruthy.
  assert (Hs1 : this s1 = with_contents (Some v) (this s)).
  { unfold s1. rewrite ConfigFacts.read_eq in Hread |- *.
    cbv zeta in Hread |- *.
    destruct (fst (perform _ _)) as [x|err].
    - cbn [fst snd this] in *. now injection Hread as ->.
    - destruct (has_code err "ENOENT" && negb throwOnNotFound);
        cbn [fst snd this] in *; [|discriminate].
      now injection Hread as <-. }
  assert (Hget : getContents (this s1) = v).
  { rewrite Hs1. unfold getContents, with_contents. simpl.
    now rewrite Htruthy. }
  assert (Hp : getPath (this s1) = getPath (this s)) by now rewrite Hs1.
  rewrite ConfigFacts.write_eq. cbv zeta.
  change (written undefined (this s1)) with (this s1).
  rewrite Hget, Hp. fold mk. fold wr. unfold after.
  destruct (fst (perform mk (world (outside s1)))) as [[]|err1];
    [destruct (fst (perform wr _)) as [[]|err2]|];
    cbn [fst snd this outside trace]; rewrite Hs1.
  - split; [reflexivity|]. split.
    + exists [Called wr]. split; [now rewrite <- app_assoc|now right].
    + intros v' [= <-]. split; [reflexivity|now rewrite <- app_assoc].
  - split; [reflexivity|]. split.
    + exists [Called wr]. split; [now rewrite <- app_assoc|now right].
    + intros v' [=].
  - split; [reflexivity|]. split.
    + exists []. split; [reflexivity|now left].
    + intros v' [=].
Qed.

Lemma read_then_write_back_witness :
  let X := JObj [("a", JNum 1)] in
  let s := snd (write (Some X) fresh) in
  fst (write undefined (snd (read false s))) = Ok X
  /\ contents (this (snd (write undefined (snd (read false s))))) = Some X.
Proof.
  intros X s.
  assert (Hread : fst (read false s) = Ok (Some X))
    by (vm_compute; reflexivity).
  assert (Hwrite : fst (write undefined (snd (read false s))) = Ok X)
    by (vm_compute; reflexivity).
  destruct (read_then_write_back s false X Hread eq_refl) as (Hc & _ & _).
  split; [exact Hwrite|exact Hc].
Defined.



(** ** Reading *)

(** X14: what read() returns.  When read(throwOnNotFound) returns, the
    value it returns is never undefined and is exactly the contents the
    instance now holds: the value the file system gave, or the empty object
    after a suppressed not-found error; when it throws, the contents are
    those from before the call.  getContents() then agrees with the value
    returned exactly when that value is truthy. *)
Theorem read_returns_contents
  {W : Type} {collaborators : Collaborators W}
  (throwOnNotFound : bool) (s : state W) :
  let s' := snd (read throwOnNotFound s) in
  (forall r, fst (read throwOnNotFound s) = Ok r ->
             r = contents (this s')
             /\ (exists v, r = Some v
                           /\ (getContents (this s') = v <-> truthy v = true)))
  /\ (forall err, fst (read throwOnNotFound s) = Throw err ->
                  contents (this s') = contents (this s)).
Proof.
  intros s'. unfold s'. rewrite ConfigFacts.read_eq. cbv zeta.
  assert (Hv : forall v : json,
             getContents (with_contents (Some v) (this s)) = v
             <-> truthy v = true).
  { intros v. unfold getContents, with_contents. simpl.
    destruct (truthy v) eqn:Hv; split; try reflexivity; try discriminate.
    intros <-. discriminate Hv. }
  destruct (fst (perform _ _)) as [v|err].
  - split; [|discriminate]. intros r [= <-]. split; [reflexivity|].
    exists v. split; [reflexivity|apply Hv].
  - destruct (has_code err "ENOENT" && negb throwOnNotFound).
    + split; [|discriminate]. intros r [= <-]. split; [reflexivity|].
      exists empty_object. split; [reflexivity|apply Hv].
    + split; [discriminate|]. reflexivity.
Qed.
